(** * PassKey: the wordlist engine of [passkey.py], embedded and verified

    The development follows the Python source function by function.

    - A Python [str] is a [string]; its characters are ASCII characters
      (the interactive front end lower-cases names and insists on digits
      for dates). The case and class predicates below are the ASCII
      restrictions of [str.lower], [str.upper], [str.isdigit], ...
    - A Python [set] of strings is a [gset string].
    - [list(s)] for a set [s] enumerates it in an order the interpreter
      chooses. That order is a parameter [listing] of the engine, known
      only to be a permutation of the elements.
    - A Python exception is [None] in the [option] monad. *)

From Stdlib Require Import ZArith Ascii String DecimalString.
From stdpp Require Import base option list sets gmap strings sorting.

Local Open Scope Z_scope.

(** ** Python string primitives *)

Module PyStr.

Definition code (c : ascii) : N := N_of_ascii c.

Definition isdigit_char (c : ascii) : bool :=
  ((48 <=? code c) && (code c <=? 57))%N.

Definition isupper_char (c : ascii) : bool :=
  ((65 <=? code c) && (code c <=? 90))%N.

Definition islower_char (c : ascii) : bool :=
  ((97 <=? code c) && (code c <=? 122))%N.

Definition lower_char (c : ascii) : ascii :=
  if isupper_char c then ascii_of_N (code c + 32) else c.

Definition upper_char (c : ascii) : ascii :=
  if islower_char c then ascii_of_N (code c - 32) else c.

Fixpoint smap (f : ascii → ascii) (s : string) : string :=
  match s with
  | EmptyString => EmptyString
  | String c r => String (f c) (smap f r)
  end.

Fixpoint sany (p : ascii → bool) (s : string) : bool :=
  match s with
  | EmptyString => false
  | String c r => p c || sany p r
  end.

Fixpoint sall (p : ascii → bool) (s : string) : bool :=
  match s with
  | EmptyString => true
  | String c r => p c && sall p r
  end.

(** [len(s)] *)
Definition len (s : string) : Z := Z.of_nat (String.length s).

(** truth value of a string in a condition: non-empty *)
Definition truthy (s : string) : bool :=
  match s with EmptyString => false | String _ _ => true end.

(** [s.lower()], [s.upper()], [s.capitalize()] on ASCII strings: the 26
    letters change case and every other character stays. *)
Definition lower (s : string) : string := smap lower_char s.
Definition upper (s : string) : string := smap upper_char s.
Definition capitalize (s : string) : string :=
  match s with
  | EmptyString => EmptyString
  | String c r => String (upper_char c) (lower r)
  end.

(** [s.isdigit()]: non-empty and every character a digit *)
Definition isdigit (s : string) : bool := truthy s && sall isdigit_char s.

(** [s.replace(old, new)] for a one-character [old] *)
Fixpoint replace (old : ascii) (new : string) (s : string) : string :=
  match s with
  | EmptyString => EmptyString
  | String c r =>
      if Ascii.eqb c old then new +:+ replace old new r
      else String c (replace old new r)
  end.

(** [s[:n]] and [s[n:]] for [n >= 0] *)
Fixpoint upto (n : nat) (s : string) : string :=
  match n, s with
  | S k, String c r => String c (upto k r)
  | _, _ => EmptyString
  end.

Fixpoint after (n : nat) (s : string) : string :=
  match n, s with
  | S k, String _ r => after k r
  | _, _ => s
  end.

(** [s[a:b]] for [0 <= a <= b] *)
Definition slice (a b : nat) (s : string) : string := upto (b - a) (after a s).

(** [s[-k:]] for [k > 0]: the last [k] characters, all of [s] when shorter *)
Definition tail_chars (k : nat) (s : string) : string :=
  after (String.length s - k) s.

(** [s[i]] for [i >= 0]; [None] is [IndexError] *)
Fixpoint at_index (s : string) (i : nat) : option ascii :=
  match s, i with
  | EmptyString, _ => None
  | String c _, O => Some c
  | String _ r, S k => at_index r k
  end.

(** [s[::-1]] *)
Definition reversed (s : string) : string := String.rev s.

(** [c in s] for a character [c] *)
Definition contains (c : ascii) (s : string) : bool := sany (Ascii.eqb c) s.

(** [s.split(c)[0]]: the text before the first [c] *)
Fixpoint before (c : ascii) (s : string) : string :=
  match s with
  | EmptyString => EmptyString
  | String d r => if Ascii.eqb d c then EmptyString else String d (before c r)
  end.

(** [str(c)]: the one-character string *)
Definition chr (c : ascii) : string := String c EmptyString.

(** [str(n)] for an integer *)
Definition str (n : Z) : string := NilEmpty.string_of_int (Z.to_int n).

End PyStr.

Import PyStr.

(** ** The product [n * 0.7] in binary64 *)

Module Float64.

(** The literal [0.7] is the double [mant_07 / 2^53]. *)
Definition mant_07 : Z := 6305039478318694.

Definition bits (n : Z) : Z := if n =? 0 then 0 else Z.log2 n + 1.

(** Round the non-negative integer [n] to 53 significant bits, ties to
    even. The result is again an integer, a multiple of [2^(bits n - 53)]. *)
Definition round53 (n : Z) : Z :=
  let sh := bits n - 53 in
  if sh <=? 0 then n
  else
    let q := Z.shiftr n sh in
    let r := Z.land n (Z.ones sh) in
    let half := Z.shiftl 1 (sh - 1) in
    let q' := if (half <? r) || ((r =? half) && Z.odd q) then q + 1 else q in
    Z.shiftl q' sh.

(** [times_07 n] is the double [float(n) * 0.7], scaled by [2^53]
    (for [0 <= n < 2^53], where [float(n)] is exact). *)
Definition times_07 (n : Z) : Z := round53 (n * mant_07).

(** [d > n * 0.7] for integers [d] and [n]: Python compares the integer
    with the double exactly. *)
Definition gt_times_07 (d n : Z) : bool := times_07 n <? d * 2 ^ 53.

End Float64.

(** ** Data model *)

(** [class Profile] *)
Record Profile := {
  name : string;
  surname : string;
  nickname : string;
  birthdate : string;
  partner_name : string;
  partner_nickname : string;
  partner_birthdate : string;
  child_name : string;
  child_nickname : string;
  child_birthdate : string;
  pet_name : string;
  company : string;
  keywords : list string;
  email : string;
  phone : string
}.

(** [Profile()] with every field at its default *)
Definition empty_profile : Profile :=
  {| name := ""; surname := ""; nickname := ""; birthdate := "";
     partner_name := ""; partner_nickname := ""; partner_birthdate := "";
     child_name := ""; child_nickname := ""; child_birthdate := "";
     pet_name := ""; company := ""; keywords := []; email := ""; phone := "" |}.

(** [class PasswordConfig] *)
Record PasswordConfig := {
  min_length : Z;
  max_length : Z;
  use_leet : bool;
  use_special_chars : bool;
  use_numbers : bool;
  use_modern_terms : bool;
  year_range : list string;
  special_chars : list string;
  modern_terms : list string;
  num_from : Z;
  num_to : Z
}.

(** The part of the global [CONFIG] that the engine reads directly:
    [CONFIG["LEET"]] as the ordered item list of the dict, and
    [CONFIG["global"]["threshold"]]. *)
Record GlobalConfig := {
  LEET : list (ascii * string);
  threshold : Z
}.

(** [range(a, b, step)] for a positive [step] *)
Definition py_range (a b step : Z) : list Z :=
  (λ i : nat, a + step * Z.of_nat i) <$> seq 0 (Z.to_nat ((b - a + step - 1) / step)).

(** The defaults of [read_config] and of [PasswordConfig.__init__]. *)
Definition default_LEET : list (ascii * string) :=
  [ ("a"%char, "4"); ("e"%char, "3"); ("i"%char, "1"); ("o"%char, "0");
    ("s"%char, "5"); ("t"%char, "7"); ("g"%char, "9"); ("b"%char, "8") ].

Definition default_chars : list string :=
  ["!"; "@"; "#"; "$"; "%"; "&"; "*"; "_"; "-"; "+"; "="].

Definition default_modern_terms : list string :=
  [ "ai"; "crypto"; "bitcoin"; "nft"; "meta"; "chatgpt"; "web3";
    "defi"; "blockchain"; "covid"; "vaccine"; "zoom"; "tiktok";
    "2025"; "2024"; "2023"; "gaming"; "streaming"; "cloud" ].

Definition default_global : GlobalConfig :=
  {| LEET := default_LEET; threshold := 1000 |}.

Definition default_config : PasswordConfig :=
  {| min_length := 6; max_length := 20;
     use_leet := true; use_special_chars := true;
     use_numbers := true; use_modern_terms := true;
     year_range := str <$> py_range 1950 2026 1;
     special_chars := default_chars;
     modern_terms := default_modern_terms;
     num_from := 0; num_to := 99 |}.

(** ** [PassKey.make_leet] *)

Definition make_leet (g : GlobalConfig) (word : string) : string :=
  foldl (λ leet_word item, replace item.1 item.2 leet_word) (lower word) (LEET g).

(** ** [PassKey.calculate_password_strength] *)

Inductive strength := weak | medium | strong.

(** [any(c in self.config.special_chars for c in password)]: membership of
    the one-character string in the list *)
Definition has_special (cfg : PasswordConfig) (password : string) : bool :=
  sany (λ c, bool_decide (chr c ∈ special_chars cfg)) password.

(** [len(set(password))] *)
Definition charset (s : string) : gset ascii := list_to_set (list_ascii_of_string s).
Definition distinct (password : string) : Z := Z.of_nat (size (charset password)).

(** [if cond: score += k] *)
Definition bump (cond : bool) (k : Z) (score : Z) : Z :=
  if cond then score + k else score.

Definition calculate_password_strength (cfg : PasswordConfig) (password : string) : strength :=
  let score := 0 in
  let score := bump (8 <=? len password) 1 score in
  let score := bump (12 <=? len password) 1 score in
  let score := bump (16 <=? len password) 1 score in
  let score := bump (sany isupper_char password) 1 score in
  let score := bump (sany islower_char password) 1 score in
  let score := bump (sany isdigit_char password) 1 score in
  let score := bump (has_special cfg password) 2 score in
  let score := bump (Float64.gt_times_07 (distinct password) (len password)) 1 score in
  if score <=? 3 then weak
  else if score <=? 6 then medium
  else strong.

(** The rubric as the specification words it: a sum of points and two
    thresholds. Its last point compares the number of distinct characters
    with [0.7 × length] as numbers, in exact arithmetic:
    [d > 7/10 * n] is [7 * n < 10 * d]. *)
Definition point (cond : bool) : Z := if cond then 1 else 0.

Definition exceeds_seven_tenths (d n : Z) : bool := 7 * n <? 10 * d.

Definition rubric_total (special : list string) (token : string) : Z :=
  point (8 <=? len token) + point (12 <=? len token) + point (16 <=? len token)
  + point (sany isupper_char token)
  + point (sany islower_char token)
  + point (sany isdigit_char token)
  + 2 * point (sany (λ c, bool_decide (chr c ∈ special)) token)
  + point (exceeds_seven_tenths (distinct token) (len token)).

Definition rubric_class (total : Z) : strength :=
  if decide (total ≤ 3) then weak
  else if decide (total ≤ 6) then medium
  else strong.

(** ** Helpers for lists, files and exports *)

(** [if cond: words.extend(l)] *)
Definition when {A} (cond : bool) (l : list A) : list A := if cond then l else [].

(** [l[-k:]] for [k > 0] *)
Definition last_items {A} (k : nat) (l : list A) : list A :=
  drop (List.length l - k) l.

(** [str.isspace] on ASCII, as [str.strip()] uses it *)
Definition isspace_char (c : ascii) : bool :=
  ((9 <=? code c) && (code c <=? 13) || (28 <=? code c) && (code c <=? 32))%N.

Fixpoint lstrip (s : string) : string :=
  match s with
  | EmptyString => EmptyString
  | String c r => if isspace_char c then lstrip r else s
  end.

Definition strip (s : string) : string :=
  reversed (lstrip (reversed (lstrip s))).

(** [[line.strip() for line in f if line.strip()]] *)
Definition load_words (lines : list string) : list string :=
  filter (λ w, truthy w) (strip <$> lines).

(** [re.sub(r'\D', '', s)] *)
Fixpoint digits_only (s : string) : string :=
  match s with
  | EmptyString => EmptyString
  | String c r => if isdigit_char c then String c (digits_only r) else digits_only r
  end.

(** [min_length <= len(p) <= max_length] *)
Definition in_bounds (cfg : PasswordConfig) (p : string) : Prop :=
  min_length cfg ≤ len p ∧ len p ≤ max_length cfg.

Global Instance in_bounds_dec cfg p : Decision (in_bounds cfg p).
Proof. unfold in_bounds. apply _. Defined.

(** The line separator of the wordlist files *)
Definition newline : string := String "010"%char EmptyString.

(** The fixed lists of the engine *)
Definition separators : list string := [""; "_"; "-"; "."; "@"; "!"].
Definition providers : list string :=
  ["gmail.com"; "yahoo.com"; "hotmail.com"; "outlook.com"].
Definition improve_years : list string := str <$> py_range 2020 2026 1.
Definition improve_numbers : list string := ["123"; "1"; "12"; "01"; "007"].

(** ** Statistics records *)

(** A value stored in the statistics dict. A float is kept as the exact
    expression it rounds: [SRound2 num den scale] is
    [round(num / den * scale, 2)]. *)
Inductive stat :=
  | SInt (n : Z)
  | SRound2 (num den scale : Z)
  | SCounts (m : gmap string Z)
  | SText (s : string).

(** [num / den] before rounding; [None] is [ZeroDivisionError] *)
Definition py_div (num den : Z) : option (Z * Z) :=
  if den =? 0 then None else Some (num, den).

(** [min(l)] and [max(l)]; [None] is the [ValueError] on an empty list *)
Definition py_min (l : list Z) : option Z :=
  match l with [] => None | x :: r => Some (foldl Z.min x r) end.
Definition py_max (l : list Z) : option Z :=
  match l with [] => None | x :: r => Some (foldl Z.max x r) end.

Definition strength_name (s : strength) : string :=
  match s with weak => "weak" | medium => "medium" | strong => "strong" end.

(** [counter[key] += 1] *)
Definition count_up (key : string) (counter : gmap string Z) : gmap string Z :=
  <[key := default 0 (counter !! key) + 1]> counter.

(** [d.get(key, 0)] *)
Definition get0 (key : string) (d : gmap string Z) : Z := default 0 (d !! key).

(** ** The engine *)

Section Engine.

(** [listing s] is [list(s)], and the order of [for x in s]: some
    enumeration of the set without repetition. *)
Context (listing : gset string → list string).

Context (cfg : PasswordConfig) (glob : GlobalConfig).

(** *** [PassKey.generate_base_words] *)

(** The list [words] before the reversal pass. *)
Definition base_word_list (profile : Profile) : list string :=
  let p := profile in
  when (truthy (name p)) [name p; capitalize (name p); upper (name p)]
  ++ when (truthy (surname p)) [surname p; capitalize (surname p); upper (surname p)]
  ++ when (truthy (nickname p)) [nickname p; capitalize (nickname p)]
  ++ match name p, surname p with
     | String initial _, String _ _ =>
         [ name p +:+ surname p;
           surname p +:+ name p;
           capitalize (name p) +:+ capitalize (surname p);
           chr initial +:+ surname p ]
     | _, _ => []
     end
  ++ when (truthy (partner_name p))
       ([partner_name p; capitalize (partner_name p)]
        ++ when (truthy (partner_nickname p))
             [partner_nickname p; capitalize (partner_nickname p)])
  ++ when (truthy (child_name p))
       ([child_name p; capitalize (child_name p)]
        ++ when (truthy (child_nickname p))
             [child_nickname p; capitalize (child_nickname p)])
  ++ when (truthy (pet_name p)) [pet_name p; capitalize (pet_name p)]
  ++ when (truthy (company p))
       [company p; capitalize (company p); replace " " "" (company p)]
  ++ (kw ← keywords p; [kw; capitalize kw; upper kw])
  ++ when (truthy (email p) && contains "@" (email p))
       (let username := before "@" (email p) in
        [ username; capitalize username;
          replace "." "" username; replace "_" "" username ]).

(** [for word in words[:]: if len(word) > 3: words.append(word[::-1])] *)
Definition with_reversals (words : list string) : list string :=
  words ++ (reversed <$> filter (λ word, 3 < len word) words).

Definition generate_base_words (profile : Profile) : list string :=
  listing (list_to_set (with_reversals (base_word_list profile))).

(** *** [PassKey.generate_date_variations] *)

(** The list [variations] before [list(set(variations))]. *)
Definition date_variants (date : string) : option (list string) :=
  let dd := slice 0 2 date in
  let mm := slice 2 4 date in
  let yyyy := after 4 date in
  let yy := after 2 yyyy in
  let yyy := after 1 yyyy in
  d1 ← at_index dd 1;
  m1 ← at_index mm 1;
  Some [ dd; mm; yyyy; yy; yyy;
         dd +:+ mm; mm +:+ dd;
         dd +:+ mm +:+ yyyy; mm +:+ dd +:+ yyyy;
         dd +:+ mm +:+ yy; mm +:+ dd +:+ yy;
         yyyy +:+ mm +:+ dd; yyyy +:+ dd +:+ mm;
         yy +:+ mm +:+ dd; yy +:+ dd +:+ mm;
         chr d1; chr m1 ].

Definition generate_date_variations (date : string) : option (list string) :=
  if negb (truthy date) || negb (len date =? 8) then Some []
  else
    variations ← date_variants date;
    Some (listing (list_to_set variations)).

(** *** [PassKey.generate_combinations] *)

Definition generate_combinations (profile : Profile) : option (gset string) :=
  let passwords : gset string := ∅ in
  let base_words := generate_base_words profile in
  d_self ← generate_date_variations (birthdate profile);
  d_partner ← generate_date_variations (partner_birthdate profile);
  d_child ← generate_date_variations (child_birthdate profile);
  let dates := listing (list_to_set (d_self ++ d_partner ++ d_child)) in
  let years := last_items 10 (year_range cfg) in
  (* base words alone *)
  let passwords := passwords ∪ list_to_set base_words in
  (* words + dates with separators *)
  let passwords := passwords ∪ list_to_set
    (word ← base_words; date ← dates; sep ← take 3 separators;
     [word +:+ sep +:+ date; date +:+ sep +:+ word]) in
  (* words + years *)
  let passwords := passwords ∪ list_to_set
    (word ← base_words; year ← years; sep ← take 3 separators;
     [word +:+ sep +:+ year; year +:+ sep +:+ word]) in
  (* words + numbers *)
  let passwords :=
    if use_numbers cfg then
      passwords ∪ list_to_set
        (word ← take 50 base_words;
         num ← str <$> py_range (num_from cfg) (Z.min (num_to cfg) 100) 11;
         [word +:+ num; num +:+ word])
    else passwords in
  (* special characters *)
  let passwords :=
    if use_special_chars cfg then
      passwords ∪ list_to_set
        (word ← take 50 base_words; char ← take 5 (special_chars cfg);
         [word +:+ char; char +:+ word]
         ++ (year ← last_items 3 years; [word +:+ char +:+ year]))
    else passwords in
  (* modern terms *)
  let passwords :=
    if use_modern_terms cfg then
      passwords ∪ list_to_set
        (word ← take 20 base_words; term ← take 15 (modern_terms cfg);
         [word +:+ term; term +:+ word; word +:+ capitalize term])
    else passwords in
  (* email patterns *)
  let passwords :=
    if truthy (email profile) && contains "@" (email profile) then
      let username := before "@" (email profile) in
      passwords ∪ list_to_set
        (provider ← providers; [username +:+ "@" +:+ provider])
    else passwords in
  (* phone patterns *)
  let passwords :=
    if truthy (phone profile) then
      let clean_phone := digits_only (phone profile) in
      if 4 <=? len clean_phone then
        passwords ∪ {[ tail_chars 4 clean_phone ]}
                  ∪ {[ tail_chars 6 clean_phone ]}
                  ∪ {[ tail_chars 8 clean_phone ]}
      else passwords
    else passwords in
  (* leet speak *)
  let passwords :=
    if use_leet cfg then
      let sample_size := Nat.min (size passwords) 5000 in
      let leet_passwords : gset string :=
        list_to_set (make_leet glob <$> take sample_size (listing passwords)) in
      passwords ∪ leet_passwords
    else passwords in
  (* filter by length *)
  Some (filter (in_bounds cfg) passwords).

(** *** [PassKey.generate_statistics] and [PassKey.display_statistics] *)

Definition generate_statistics (now : string) (passwords : gset string)
  : option (gmap string stat) :=
  if bool_decide (passwords = ∅) then Some ∅
  else
    let total := Z.of_nat (size passwords) in
    let lengths := len <$> listing passwords in
    avg_length ← py_div (foldr Z.add 0 lengths) total;
    let strength_dist : gmap string Z :=
      foldl (λ dist pwd,
               count_up (strength_name (calculate_password_strength cfg pwd)) dist)
            ∅ (listing passwords) in
    let count (p : string → bool) : Z :=
      Z.of_nat (List.length (List.filter p (listing passwords))) in
    let char_types : gmap string Z :=
      {[ "upper" := count (sany isupper_char);
         "lower" := count (sany islower_char);
         "digit" := count (sany isdigit_char);
         "special" := count (has_special cfg) ]} in
    lo ← py_min lengths;
    hi ← py_max lengths;
    weak_pct ← py_div (get0 "weak" strength_dist) total;
    medium_pct ← py_div (get0 "medium" strength_dist) total;
    strong_pct ← py_div (get0 "strong" strength_dist) total;
    Some (<["total_passwords" := SInt total]>
         (<["average_length" := SRound2 avg_length.1 avg_length.2 1]>
         (<["min_length" := SInt lo]>
         (<["max_length" := SInt hi]>
         (<["strength_distribution" := SCounts strength_dist]>
         (<["weak_percentage" := SRound2 weak_pct.1 weak_pct.2 100]>
         (<["medium_percentage" := SRound2 medium_pct.1 medium_pct.2 100]>
         (<["strong_percentage" := SRound2 strong_pct.1 strong_pct.2 100]>
         (<["char_type_distribution" := SCounts char_types]>
         (<["generation_timestamp" := SText now]> ∅)))))))))).

(** [stats[key]]; [None] is [KeyError] *)
Definition field (stats : gmap string stat) (key : string) : option stat :=
  stats !! key.

(** [stats[key].get(sub, 0)] and [stats[key][sub]] on a nested dict *)
Definition nested (stats : gmap string stat) (key sub : string) (strict : bool)
  : option stat :=
  d ← field stats key;
  match d with
  | SCounts m => if strict then SInt <$> (m !! sub) else Some (SInt (get0 sub m))
  | _ => None
  end.

(** The values [display_statistics] prints, in order. *)
Definition display_statistics (stats : gmap string stat) : option (list stat) :=
  total ← field stats "total_passwords";
  avg ← field stats "average_length";
  lo ← field stats "min_length";
  hi ← field stats "max_length";
  weak_pct ← field stats "weak_percentage";
  weak_n ← nested stats "strength_distribution" "weak" false;
  medium_pct ← field stats "medium_percentage";
  medium_n ← nested stats "strength_distribution" "medium" false;
  strong_pct ← field stats "strong_percentage";
  strong_n ← nested stats "strength_distribution" "strong" false;
  up ← nested stats "char_type_distribution" "upper" true;
  lo_n ← nested stats "char_type_distribution" "lower" true;
  dig ← nested stats "char_type_distribution" "digit" true;
  spec ← nested stats "char_type_distribution" "special" true;
  Some [ total; avg; lo; hi; weak_pct; weak_n; medium_pct; medium_n;
         strong_pct; strong_n; up; lo_n; dig; spec ].

(** *** [PassKey.export_txt] *)

(** [sorted(passwords)]: the order of [str] comparison *)
Definition sorted (passwords : gset string) : list string :=
  merge_sort String.le (listing passwords).

(** The text written to the output file. *)
Definition export_txt (passwords : gset string) : string :=
  String.concat newline (sorted passwords).

(** *** [PassKey.improve_wordlist] *)

(** The enhancement proper, from [enhanced = set(words)] to the length
    filter. *)
Definition enhance (words : list string) : gset string :=
  let enhanced : gset string := list_to_set words in
  (* case variations *)
  let enhanced := enhanced ∪ list_to_set
    (word ← take 1000 words; [capitalize word; upper word; lower word]) in
  (* leet speak *)
  let enhanced :=
    if use_leet cfg then
      enhanced ∪ list_to_set (make_leet glob <$> take 500 words)
    else enhanced in
  (* years *)
  let enhanced := enhanced ∪ list_to_set
    (word ← take 500 words; year ← improve_years;
     [word +:+ year; year +:+ word]) in
  (* special chars *)
  let enhanced :=
    if use_special_chars cfg then
      enhanced ∪ list_to_set
        (word ← take 300 words; char ← take 3 (special_chars cfg);
         [word +:+ char])
    else enhanced in
  (* numbers *)
  let enhanced := enhanced ∪ list_to_set
    (word ← take 300 words; num ← improve_numbers; [word +:+ num]) in
  filter (in_bounds cfg) enhanced.

(** [fs] maps each readable file to its lines; [answer] is what the user
    types at the large-wordlist prompt. The returned set is also what is
    exported when an output file is given. *)
Definition improve_wordlist (fs : gmap string (list string)) (answer : string)
    (input_file : string) : gset string :=
  match fs !! input_file with
  | None => ∅
  | Some lines =>
      let words := load_words lines in
      if (threshold glob <? Z.of_nat (List.length words))
         && negb (String.eqb (lower answer) "y")
      then ∅
      else enhance words
  end.

(** *** [PassKey.merge_wordlists] *)

(** The set [merged] after the length filter. *)
Definition merged_tokens (fs : gmap string (list string)) (files : list string)
  : gset string :=
  let merged : gset string :=
    foldl (λ merged file,
             match fs !! file with
             | None => merged
             | Some lines => merged ∪ list_to_set (load_words lines)
             end) ∅ files in
  filter (in_bounds cfg) merged.

(** The text written to [output_file]. *)
Definition merge_wordlists (fs : gmap string (list string)) (files : list string)
  : string :=
  export_txt (merged_tokens fs files).

(** *** [PassKey.run_interactive] *)

(** The generation, statistics and display steps; [None] is the exception
    that ends the run. *)
Definition run_interactive (now : string) (profile : Profile)
  : option (list stat) :=
  passwords ← generate_combinations profile;
  stats ← generate_statistics now passwords;
  display_statistics stats.

End Engine.

(** ** The front end *)

(** *** [Profile.validate] *)

(** [s.split(c)] for a one-character separator *)
Fixpoint split_on (c : ascii) (s : string) : list string :=
  match s with
  | EmptyString => [EmptyString]
  | String d r =>
      if Ascii.eqb d c then EmptyString :: split_on c r
      else match split_on c r with
           | h :: t => String d h :: t
           | [] => [String d EmptyString]
           end
  end.

(** The three date fields with the names [validate] reports them under. *)
Definition date_fields (p : Profile) : list (string * string) :=
  [ (birthdate p, "Birthdate");
    (partner_birthdate p, "Partner's birthdate");
    (child_birthdate p, "Child's birthdate") ].

Definition validate (p : Profile) : bool * list string :=
  let errors : list string := [] in
  let errors := errors ++ when (negb (truthy (name p))) ["Name is required"] in
  let errors := errors ++
    (f ← date_fields p;
     when (truthy f.1 && (negb (len f.1 =? 8) || negb (isdigit f.1)))
          [f.2 +:+ " must be in DDMMYYYY format"]) in
  let errors := errors ++
    when (truthy (email p) && negb (contains "@" (email p)))
         ["Invalid email format"] in
  (bool_decide (List.length errors = 0%nat), errors).

(** *** Reading the terminal *)

(** What the user types, one string per [input()] call. A reader consumes
    a prefix of it; [None] is the [EOFError] of an exhausted input. *)
Definition reader (A : Type) : Type := list string → option (A * list string).

Global Instance reader_ret : MRet reader := λ A a inputs, Some (a, inputs).

Global Instance reader_bind : MBind reader := λ A B k m inputs,
  match m inputs with
  | None => None
  | Some (a, rest) => k a rest
  end.

(** [input(prompt)] *)
Definition input : reader string :=
  λ inputs, match inputs with [] => None | line :: rest => Some (line, rest) end.

(** [while True: x = input(); if done(x): ...]: ask again until [accept]
    yields a value. *)
Fixpoint ask_until {A} (accept : string → option A) (inputs : list string)
  : option (A * list string) :=
  match inputs with
  | [] => None
  | line :: rest =>
      match accept line with
      | Some a => Some (a, rest)
      | None => ask_until accept rest
      end
  end.

(** *** [PassKey._get_date_input] and [PassKey._get_email_input] *)

Definition _get_date_input : reader string :=
  ask_until (λ line,
    let date := strip line in
    if negb (truthy date) then Some EmptyString
    else if (len date =? 8) && isdigit date then Some date
    else None).

(** [email.split('@')[1]]; the index exists when ['@' in email] *)
Definition email_domain (email : string) : option string :=
  split_on "@" email !! 1%nat.

Definition _get_email_input : reader string :=
  ask_until (λ line,
    let email := lower (strip line) in
    if negb (truthy email) then Some EmptyString
    else if contains "@" email
            && from_option (contains ".") false (email_domain email)
         then Some email
    else None).

(** *** [PassKey.interactive_profile] *)

(** The questions of one pass, in the order they are asked. *)
Definition ask_profile : reader Profile :=
  name_ ← ask_until (λ line,
                let n := lower (strip line) in
                if truthy n then Some n else None);
  surname_ ← input;
  nickname_ ← input;
  birthdate_ ← _get_date_input;
  email_ ← _get_email_input;
  phone_ ← input;
  partner_name_ ← input;
  partner_nickname_ ← input;
  partner_birthdate_ ← _get_date_input;
  child_name_ ← input;
  child_nickname_ ← input;
  child_birthdate_ ← _get_date_input;
  pet_name_ ← input;
  company_ ← input;
  keywords_input ← input;
  mret {| name := name_;
         surname := lower (strip surname_);
         nickname := lower (strip nickname_);
         birthdate := birthdate_;
         partner_name := lower (strip partner_name_);
         partner_nickname := lower (strip partner_nickname_);
         partner_birthdate := partner_birthdate_;
         child_name := lower (strip child_name_);
         child_nickname := lower (strip child_nickname_);
         child_birthdate := child_birthdate_;
         pet_name := lower (strip pet_name_);
         company := lower (strip company_);
         keywords :=
           (if truthy (strip keywords_input)
            then (λ k, lower (strip k)) <$> split_on "," (strip keywords_input)
            else []);
         email := email_;
         phone := strip phone_ |}.

(** How a run of the dialogue ends. *)
Inductive dialogue :=
  | Returned (profile : Profile) (rest : list string)
  | EOFError
  | Unfinished.

(** [fuel] bounds the number of passes: a pass is repeated when the
    profile does not validate and the user answers [n]. *)
Fixpoint interactive_profile (fuel : nat) (inputs : list string) : dialogue :=
  match fuel with
  | O => Unfinished
  | S fuel' =>
      match ask_profile inputs with
      | None => EOFError
      | Some (profile, rest) =>
          if (validate profile).1 then Returned profile rest
          else
            match rest with
            | [] => EOFError
            | confirm :: rest' =>
                if String.eqb (lower confirm) "n"
                then interactive_profile fuel' rest'
                else Returned profile rest'
            end
      end
  end.

(** *** [main]: the configuration *)

(** [CONFIG["global"]], as [PasswordConfig.__init__] reads it *)
Record GlobalSection := {
  chars : list string;
  numfrom : Z;
  numto : Z;
  wcfrom : Z;
  wcto : Z;
  terms : list string
}.

(** [PasswordConfig()] *)
Definition PasswordConfig_init (g : GlobalSection) : PasswordConfig :=
  {| min_length := wcfrom g; max_length := wcto g;
     use_leet := true; use_special_chars := true;
     use_numbers := true; use_modern_terms := true;
     year_range := str <$> py_range 1950 2026 1;
     special_chars := chars g;
     modern_terms := terms g;
     num_from := numfrom g; num_to := numto g |}.

(** The options of the command line that reach the configuration;
    an absent integer option is [None]. *)
Record Args := {
  min_len : option Z;
  max_len : option Z;
  no_leet : bool;
  no_special : bool;
  no_modern : bool
}.

(** [if args.min_len:] is true for an integer that is present and not 0 *)
Definition given (arg : option Z) : option Z :=
  match arg with
  | Some n => if n =? 0 then None else Some n
  | None => None
  end.

(** The [# Configure] block of [main]. *)
Definition configure (g : GlobalSection) (args : Args) : PasswordConfig :=
  let config := PasswordConfig_init g in
  {| min_length := default (min_length config) (given (min_len args));
     max_length := default (max_length config) (given (max_len args));
     use_leet := negb (no_leet args);
     use_special_chars := negb (no_special args);
     use_numbers := use_numbers config;
     use_modern_terms := negb (no_modern args);
     year_range := year_range config;
     special_chars := special_chars config;
     modern_terms := modern_terms config;
     num_from := num_from config; num_to := num_to config |}.

(** [read_config], the special characters when the configuration file
    has no entry for them: the fallback of
    [config.get("specialchars", "chars", fallback="!@#$%&*_-+=")], split
    at the commas. *)
Definition read_config_fallback_chars : list string :=
  split_on "," "!@#$%&*_-+=".

(** *** Reading a wordlist file *)

Definition cr : ascii := "013"%char.
Definition lf : ascii := "010"%char.

(** The newline translation of a file opened in text mode: a carriage
    return, alone or before a line feed, reads as one line feed. *)
Fixpoint universal_newlines (text : string) : string :=
  match text with
  | EmptyString => EmptyString
  | String c r =>
      if Ascii.eqb c cr then
        match r with
        | String d r' =>
            if Ascii.eqb d lf then String lf (universal_newlines r')
            else String lf (universal_newlines r)
        | EmptyString => String lf EmptyString
        end
      else String c (universal_newlines r)
  end.

(** [for line in f]: the lines of the text, each with its line feed, the
    last one without when the text does not end in one. *)
Fixpoint file_lines (text : string) : list string :=
  match text with
  | EmptyString => []
  | String c r =>
      if Ascii.eqb c lf then newline :: file_lines r
      else match file_lines r with
           | [] => [String c EmptyString]
           | line :: lines => String c line :: lines
           end
  end.

(** The [words] that [improve_wordlist] and [merge_wordlists] load from a
    file with the given text. *)
Definition read_words (text : string) : list string :=
  load_words (file_lines (universal_newlines text)).

(** *** [PassKey.export_csv] *)

(** A cell handed to [csv.writer.writerow]. *)
Inductive cell :=
  | CText (s : string)
  | CInt (n : Z)
  | CBool (b : bool)
  | CStrength (s : strength).

Definition csv_header : list cell :=
  CText <$> [ "Password"; "Length"; "Strength";
              "Has_Upper"; "Has_Lower"; "Has_Digit"; "Has_Special" ].

Definition csv_row (cfg : PasswordConfig) (pwd : string) : list cell :=
  [ CText pwd; CInt (len pwd);
    CStrength (calculate_password_strength cfg pwd);
    CBool (sany isupper_char pwd);
    CBool (sany islower_char pwd);
    CBool (sany isdigit_char pwd);
    CBool (has_special cfg pwd) ].

(** The rows written, the header first. *)
Definition export_csv (listing : gset string → list string)
    (cfg : PasswordConfig) (passwords : gset string) : list (list cell) :=
  csv_header :: (csv_row cfg <$> sorted listing passwords).

(** ** Definitions used by the statements *)

(** The first character, if any, is not white space. *)
Definition starts_clean (s : string) : bool :=
  match s with
  | EmptyString => true
  | String c _ => negb (isspace_char c)
  end.

(** The seventeen variants as the specification lists them, cut out of the
    date with the standard [substring]. *)
Definition enumerated_variants (date : string) : list string :=
  let dd := substring 0 2 date in
  let mm := substring 2 2 date in
  let yyyy := substring 4 4 date in
  let yy := substring 2 2 yyyy in
  let yyy := substring 1 3 yyyy in
  [ dd; mm; yyyy; yy; yyy; dd +:+ mm; mm +:+ dd;
    dd +:+ mm +:+ yyyy; mm +:+ dd +:+ yyyy; dd +:+ mm +:+ yy; mm +:+ dd +:+ yy;
    yyyy +:+ mm +:+ dd; yyyy +:+ dd +:+ mm; yy +:+ mm +:+ dd; yy +:+ dd +:+ mm;
    substring 1 1 dd; substring 1 1 mm ].

(** One character of the default leet pass: lower-case, then the eight
    substitutions in dict order. *)
Definition swap_char (old new c : ascii) : ascii :=
  if Ascii.eqb c old then new else c.

Definition default_leet_char (c : ascii) : ascii :=
  swap_char "b" "8" (swap_char "g" "9" (swap_char "t" "7" (swap_char "s" "5"
    (swap_char "o" "0" (swap_char "i" "1" (swap_char "e" "3" (swap_char "a" "4"
      (lower_char c)))))))).

(** A token that survives a round trip through a wordlist file: not
    empty, no white space at either end, no line break inside. *)
Definition clean (t : string) : bool :=
  truthy t && starts_clean t && starts_clean (reversed t)
  && negb (contains lf t) && negb (contains cr t).

(** The steps of [generate_combinations], one definition per block of the
    source, each taking the set built so far. *)
Section Steps.

Context (listing : gset string → list string).
Context (cfg : PasswordConfig) (glob : GlobalConfig) (profile : Profile).

(** Base words alone, words with dates, words with years. *)
Definition seed_step (base_words dates : list string) : gset string :=
  let years := last_items 10 (year_range cfg) in
  ∅ ∪ list_to_set base_words
    ∪ list_to_set
        (word ← base_words; date ← dates; sep ← take 3 separators;
         [word +:+ sep +:+ date; date +:+ sep +:+ word])
    ∪ list_to_set
        (word ← base_words; year ← years; sep ← take 3 separators;
         [word +:+ sep +:+ year; year +:+ sep +:+ word]).

Definition numbers_step (base_words : list string) (passwords : gset string)
  : gset string :=
  if use_numbers cfg then
    passwords ∪ list_to_set
      (word ← take 50 base_words;
       num ← str <$> py_range (num_from cfg) (Z.min (num_to cfg) 100) 11;
       [word +:+ num; num +:+ word])
  else passwords.

Definition special_step (base_words : list string) (passwords : gset string)
  : gset string :=
  let years := last_items 10 (year_range cfg) in
  if use_special_chars cfg then
    passwords ∪ list_to_set
      (word ← take 50 base_words; char ← take 5 (special_chars cfg);
       [word +:+ char; char +:+ word]
       ++ (year ← last_items 3 years; [word +:+ char +:+ year]))
  else passwords.

Definition modern_step (base_words : list string) (passwords : gset string)
  : gset string :=
  if use_modern_terms cfg then
    passwords ∪ list_to_set
      (word ← take 20 base_words; term ← take 15 (modern_terms cfg);
       [word +:+ term; term +:+ word; word +:+ capitalize term])
  else passwords.

Definition email_step (passwords : gset string) : gset string :=
  if truthy (email profile) && contains "@" (email profile) then
    let username := before "@" (email profile) in
    passwords ∪ list_to_set
      (provider ← providers; [username +:+ "@" +:+ provider])
  else passwords.

Definition phone_step (passwords : gset string) : gset string :=
  if truthy (phone profile) then
    let clean_phone := digits_only (phone profile) in
    if 4 <=? len clean_phone then
      passwords ∪ {[ tail_chars 4 clean_phone ]}
                ∪ {[ tail_chars 6 clean_phone ]}
                ∪ {[ tail_chars 8 clean_phone ]}
    else passwords
  else passwords.

Definition leet_step (passwords : gset string) : gset string :=
  if use_leet cfg then
    let sample_size := Nat.min (size passwords) 5000 in
    passwords
    ∪ list_to_set (make_leet glob <$> take sample_size (listing passwords))
  else passwords.

(** The set before the leet pass and the set before the length filter. *)
Definition before_leet (base_words dates : list string) : gset string :=
  phone_step (email_step (modern_step base_words
    (special_step base_words (numbers_step base_words
      (seed_step base_words dates))))).

Definition before_filter (base_words dates : list string) : gset string :=
  leet_step (before_leet base_words dates).

End Steps.

(** The profile with the nicknames of an unnamed partner and of an unnamed
    child blanked. *)
Definition without_orphan_nicknames (p : Profile) : Profile :=
  {| name := name p; surname := surname p; nickname := nickname p;
     birthdate := birthdate p;
     partner_name := partner_name p;
     partner_nickname :=
       if truthy (partner_name p) then partner_nickname p else "";
     partner_birthdate := partner_birthdate p;
     child_name := child_name p;
     child_nickname :=
       if truthy (child_name p) then child_nickname p else "";
     child_birthdate := child_birthdate p;
     pet_name := pet_name p; company := company p;
     keywords := keywords p; email := email p; phone := phone p |}.

(** The number of rows of a table whose cell in column [i] is [True]. *)
Definition flagged (i : nat) (row : list cell) : bool :=
  match row !! i with
  | Some (CBool true) => true
  | _ => false
  end.

Definition flag_count (i : nat) (rows : list (list cell)) : Z :=
  Z.of_nat (List.length (List.filter (flagged i) rows)).

(** The date check that [validate] and [_get_date_input] share: the field
    is empty, or has eight characters, all digits. *)
Definition date_acceptable (d : string) : bool :=
  negb (truthy d) || ((len d =? 8) && isdigit d).

(** The e-mail check of [validate]: the field is empty or has an at sign. *)
Definition email_acceptable (e : string) : bool :=
  negb (truthy e) || contains "@" e.

(** A leet map whose replacements bring back no key of the map and are
    unchanged by lower-casing. *)
Definition leet_closed (items : list (ascii * string)) : bool :=
  forallb (λ item,
             forallb (λ other, negb (contains other.1 item.2)) items
             && String.eqb (lower item.2) item.2)
          items.

(** [s.isascii()]: every character of [s] is below 128. On these strings
    [lower], [upper] and [capitalize] are [str.lower], [str.upper] and
    [str.capitalize] themselves; beyond them Python's case maps are those
    of Unicode, which can change the number of characters. *)
Definition isascii (s : string) : bool := sall (λ c, (code c <? 128)%N) s.

(** A leet map whose replacements are single characters. *)
Definition leet_single (items : list (ascii * string)) : bool :=
  forallb (λ item, Nat.eqb (String.length item.2) 1) items.

(** The leet map [read_config] builds from a configuration file with the
    default values: the letters in the order of its loop. *)
Definition file_LEET : list (ascii * string) :=
  [ ("a"%char, "4"); ("i"%char, "1"); ("e"%char, "3"); ("t"%char, "7");
    ("o"%char, "0"); ("s"%char, "5"); ("g"%char, "9"); ("b"%char, "8") ].

(** The file system as [improve_wordlist] and [merge_wordlists] see it,
    from the texts of the files: each readable file with its lines. *)
Definition read_fs (texts : gmap string string) : gmap string (list string) :=
  (λ text, file_lines (universal_newlines text)) <$> texts.

(** One step of the loop of [make_leet]:
    [leet_word = leet_word.replace(letter, leet_char)]. *)
Definition leet_item (leet_word : string) (item : ascii * string) : string :=
  replace item.1 item.2 leet_word.

(** The e-mail check of [_get_email_input]: empty, or an at sign with a
    dot in what follows it up to the next at sign. *)
Definition email_input_ok (e : string) : bool :=
  negb (truthy e)
  || (contains "@" e && from_option (contains ".") false (email_domain e)).

(** Concrete inputs *)

Definition acme_profile : Profile :=
  {| name := "john"; surname := ""; nickname := ""; birthdate := "";
     partner_name := ""; partner_nickname := ""; partner_birthdate := "";
     child_name := ""; child_nickname := ""; child_birthdate := "";
     pet_name := ""; company := "acme"; keywords := []; email := ""; phone := "" |}.

Definition jo_profile : Profile :=
  {| name := "jo"; surname := ""; nickname := ""; birthdate := "";
     partner_name := ""; partner_nickname := ""; partner_birthdate := "";
     child_name := ""; child_nickname := ""; child_birthdate := "";
     pet_name := ""; company := ""; keywords := []; email := ""; phone := "" |}.

(** The default configuration after [--min-len 25]. *)
Definition min_len_25 : PasswordConfig :=
  {| min_length := 25; max_length := 20;
     use_leet := true; use_special_chars := true;
     use_numbers := true; use_modern_terms := true;
     year_range := str <$> py_range 1950 2026 1;
     special_chars := default_chars;
     modern_terms := default_modern_terms;
     num_from := 0; num_to := 99 |}.

(** Two wordlist files, as the lines read from them. *)
Definition demo_fs : gmap string (list string) :=
  {[ "a.txt" := ["password" +:+ newline; "pw" +:+ newline; newline];
     "b.txt" := ["letmein" +:+ newline; "password" +:+ newline] ]}.

(** Further concrete inputs *)

(** An enumeration other than [elements]: the same tokens backwards. *)
Definition backwards (X : gset string) : list string := reverse (elements X).

Definition johnny_profile : Profile :=
  {| name := "johnny"; surname := ""; nickname := ""; birthdate := "15031990";
     partner_name := ""; partner_nickname := ""; partner_birthdate := "";
     child_name := ""; child_nickname := ""; child_birthdate := "";
     pet_name := ""; company := ""; keywords := [""]; email := ""; phone := "" |}.

Definition file_global : GlobalConfig :=
  {| LEET := file_LEET; threshold := 1000 |}.

Definition default_section : GlobalSection :=
  {| chars := default_chars; numfrom := 0; numto := 99;
     wcfrom := 6; wcto := 20; terms := default_modern_terms |}.

Definition fallback_section : GlobalSection :=
  {| chars := read_config_fallback_chars; numfrom := 0; numto := 99;
     wcfrom := 6; wcto := 20; terms := default_modern_terms |}.

Definition zero_args : Args :=
  {| min_len := Some 0; max_len := Some 0;
     no_leet := false; no_special := false; no_modern := false |}.

Definition demo_set : gset string := {[ "password"; "Passw0rd!" ]}.

Definition demo_texts : gmap string string :=
  {[ "a.txt" := "password" +:+ newline +:+ " pw " +:+ newline;
     "b.txt" := "letmein" +:+ newline +:+ "password" ]}.

(** Ninety characters, 63 of them distinct: the letters, the digits and a
    full stop, then 27 more [a]. *)
Definition ninety_chars : string :=
  "abcdefghijklmnopqrstuvwxyzABCDEFGHIJKLMNOPQRSTUVWXYZ0123456789."
  +:+ "aaaaaaaaaaaaaaaaaaaaaaaaaaa".

Definition demo_inputs : list string :=
  [ ""; "  John "; "Doe"; ""; "1503"; "15031990"; "bad"; "J.Doe@x.org";
    "+1 555"; ""; ""; "x"; ""; ""; ""; ""; "rex"; "Acme Inc"; "Foo, bar," ].

(** ** The primitives on small inputs *)

Example str_values : (str 0, str 11, str (-5)) = ("0", "11", "-5").
Proof. reflexivity. Qed.

Example py_range_numbers :
  py_range 0 (Z.min 99 100) 11 = [0; 11; 22; 33; 44; 55; 66; 77; 88]
  ∧ py_range 5 5 11 = [] ∧ py_range 5 3 11 = [].
Proof. repeat split. Qed.

Example case_forms :
  (capitalize "joHN doe", upper "a1b", lower "AbC") = ("John doe", "A1B", "abc").
Proof. reflexivity. Qed.

Example slices :
  (slice 2 4 "15031990", after 4 "15031990", tail_chars 4 "15551234567",
   tail_chars 6 "12345", at_index "15" 1, at_index "1" 1)
  = ("03", "1990", "4567", "12345", Some "5"%char, None).
Proof. reflexivity. Qed.

Example load_words_lines :
  load_words ["a" +:+ newline; newline; "  "; " b c "] = ["a"; "b c"].
Proof. reflexivity. Qed.

Example email_and_phone :
  (before "@" "j.doe@x.org", replace "." "" "j.d.oe", digits_only "+1 555-123-4567")
  = ("j.doe", "jdoe", "15551234567").
Proof. reflexivity. Qed.

Example ninety_times_07 :
  Float64.times_07 90 = 63 * 2 ^ 53 - 2 ^ 6 ∧ Float64.times_07 10 = 7 * 2 ^ 53.
Proof. split; reflexivity. Qed.

Example strength_examples :
  calculate_password_strength default_config "password" = weak
  ∧ calculate_password_strength default_config "Passw0rd" = medium
  ∧ calculate_password_strength default_config "Passw0rd!" = strong.
Proof. repeat split. Qed.

(** ** Proofs *)

Section Proofs.

Context (listing : gset string → list string).
Context (listing_perm : ∀ X : gset string, listing X ≡ₚ elements X).

(** *** The set enumeration *)

Lemma listing_NoDup (X : gset string) : NoDup (listing X).
Proof. rewrite listing_perm. apply NoDup_elements. Qed.

Lemma listing_elem (X : gset string) (x : string) : x ∈ listing X ↔ x ∈ X.
Proof. rewrite listing_perm. apply elem_of_elements. Qed.

Lemma listing_length (X : gset string) : List.length (listing X) = size X.
Proof. by rewrite listing_perm. Qed.

Lemma listing_nil (X : gset string) : listing X = [] ↔ X = ∅.
Proof.
  split.
  - intros E. apply set_eq. intros x. rewrite <- listing_elem, E. set_solver.
  - intros ->. apply Permutation_nil_r. by rewrite listing_perm, elements_empty.
Qed.

(** *** Dates *)

Lemma length_8_inv (s : string) :
  String.length s = 8%nat →
  ∃ a b c d e f g h,
    s = String a (String b (String c (String d
          (String e (String f (String g (String h EmptyString))))))).
Proof.
  intros H.
  repeat (destruct s as [|? s]; simpl in H; try discriminate).
  by repeat eexists.
Qed.

Lemma date_variants_length_8 (date : string) :
  String.length date = 8%nat →
  date_variants date = Some (enumerated_variants date).
Proof.
  intros (a & b & c & d & e & f & g & h & ->)%length_8_inv. reflexivity.
Qed.

Lemma len_eqb_8 (date : string) :
  (len date =? 8) = bool_decide (String.length date = 8%nat).
Proof.
  unfold len. case_bool_decide as H.
  - rewrite H. reflexivity.
  - apply Z.eqb_neq. lia.
Qed.

Lemma generate_date_variations_length_8 (date : string) :
  String.length date = 8%nat →
  generate_date_variations listing date
  = Some (listing (list_to_set (enumerated_variants date))).
Proof.
  intros H. unfold generate_date_variations.
  rewrite len_eqb_8, bool_decide_eq_true_2 by done.
  destruct date; [discriminate|]. simpl.
  by rewrite date_variants_length_8.
Qed.

Lemma generate_date_variations_other (date : string) :
  String.length date ≠ 8%nat →
  generate_date_variations listing date = Some [].
Proof.
  intros H. unfold generate_date_variations.
  rewrite len_eqb_8, bool_decide_eq_false_2 by done.
  by rewrite orb_true_r.
Qed.

Lemma generate_date_variations_total (date : string) :
  is_Some (generate_date_variations listing date).
Proof.
  destruct (decide (String.length date = 8%nat)).
  - rewrite generate_date_variations_length_8 by done. eauto.
  - rewrite generate_date_variations_other by done. eauto.
Qed.

(** C1: for every valid 8-digit date the expander returns, without
    repetition, exactly the seventeen enumerated variants; for
    ["15031990"] these are the seventeen listed strings and nothing else. *)
Theorem date_variations_exact :
  (∀ date : string,
     String.length date = 8%nat → isdigit date = true →
     ∃ vs, generate_date_variations listing date = Some vs
           ∧ NoDup vs
           ∧ ∀ x, x ∈ vs ↔ x ∈ enumerated_variants date)
  ∧ (∃ vs, generate_date_variations listing "15031990" = Some vs
           ∧ NoDup vs
           ∧ List.length vs = 17%nat
           ∧ ∀ x, x ∈ vs ↔
               x ∈ [ "15"; "03"; "1990"; "90"; "990"; "1503"; "0315";
                     "15031990"; "03151990"; "150390"; "031590";
                     "19900315"; "19901503"; "900315"; "901503"; "5"; "3" ]).
Proof.
  split.
  - intros date H8 _. eexists. split; [by apply generate_date_variations_length_8|].
    split; [apply listing_NoDup|].
    intros x. by rewrite listing_elem, elem_of_list_to_set.
  - eexists. split; [by apply generate_date_variations_length_8|].
    split; [apply listing_NoDup|]. split.
    + rewrite listing_length. by vm_compute.
    + intros x. by rewrite listing_elem, elem_of_list_to_set.
Qed.

(** C2 (amended): the expander returns the empty list exactly for the
    inputs whose length is not 8, the empty input among them; an input of
    eight characters is expanded whatever its characters are. *)
Theorem date_variations_empty_iff (date : string) :
  ∃ vs, generate_date_variations listing date = Some vs
        ∧ (vs = [] ↔ String.length date ≠ 8%nat).
Proof.
  destruct (decide (String.length date = 8%nat)) as [H8 | H8].
  - eexists. split; [by apply generate_date_variations_length_8|].
    split; [|done]. intros E%listing_nil.
    assert (substring 0 2 date ∈ (∅ : gset string)) as []%not_elem_of_empty.
    rewrite <- E. apply elem_of_list_to_set. unfold enumerated_variants. left.
  - exists []. split; [by apply generate_date_variations_other|done].
Qed.

(** *** Leet speak *)

Lemma replace_chr (old new : ascii) (s : string) :
  replace old (chr new) s = smap (swap_char old new) s.
Proof.
  induction s as [|c r IH]; [done|]. simpl. unfold swap_char at 1.
  destruct (Ascii.eqb c old); rewrite IH; reflexivity.
Qed.

Lemma smap_smap (f g : ascii → ascii) (s : string) :
  smap f (smap g s) = smap (λ c, f (g c)) s.
Proof. induction s as [|c r IH]; simpl; by rewrite ?IH. Qed.

Lemma smap_ext (f g : ascii → ascii) (s : string) :
  (∀ c, f c = g c) → smap f s = smap g s.
Proof. intros E. induction s as [|c r IH]; simpl; by rewrite ?IH, ?E. Qed.

Lemma make_leet_default (g : GlobalConfig) (word : string) :
  LEET g = default_LEET → make_leet g word = smap default_leet_char word.
Proof.
  intros E. unfold make_leet, lower. rewrite E. simpl.
  rewrite (replace_chr "a" "4"), (replace_chr "e" "3"), (replace_chr "i" "1"),
          (replace_chr "o" "0"), (replace_chr "s" "5"), (replace_chr "t" "7"),
          (replace_chr "g" "9"), (replace_chr "b" "8").
  by rewrite !smap_smap.
Qed.

Lemma default_leet_char_idem (c : ascii) :
  default_leet_char (default_leet_char c) = default_leet_char c.
Proof. by destruct c as [[] [] [] [] [] [] [] []]. Qed.

(** C3 (amended): with the default leet map the transformer sends
    ["password"] to ["p455w0rd"]: the pair s→5 of the map applies to both
    occurrences of s. *)
Theorem make_leet_password :
  make_leet default_global "password" = "p455w0rd".
Proof. reflexivity. Qed.

(** C10: with the default leet map the transformer is idempotent. *)
Theorem make_leet_idempotent (g : GlobalConfig) (w : string) :
  LEET g = default_LEET →
  make_leet g (make_leet g w) = make_leet g w.
Proof.
  intros E. rewrite !make_leet_default by done.
  rewrite smap_smap. apply smap_ext, default_leet_char_idem.
Qed.

(** *** The binary64 product *)

(** [round53 n] is a multiple of the unit in the last place and lies within
    half a unit of [n]. *)
Lemma round53_nearest (n : Z) :
  0 ≤ n →
  let ulp := 2 ^ Z.max 0 (Float64.bits n - 53) in
  (ulp | Float64.round53 n) ∧ 2 * Z.abs (Float64.round53 n - n) ≤ ulp.
Proof.
  intros Hn. unfold Float64.round53.
  destruct (Float64.bits n - 53 <=? 0) eqn:Hsh.
  - apply Z.leb_le in Hsh. rewrite Z.max_l by done. simpl.
    split; [apply Z.divide_1_l|lia].
  - apply Z.leb_gt in Hsh. rewrite Z.max_r by lia.
    set (sh := Float64.bits n - 53) in *.
    rewrite Z.shiftr_div_pow2, Z.land_ones, Z.shiftl_1_l by lia.
    assert (2 ^ sh = 2 * 2 ^ (sh - 1)) as E.
    { rewrite <- Z.pow_succ_r by lia. f_equal. lia. }
    assert (0 < 2 ^ (sh - 1)) as Hp by (apply Z.pow_pos_nonneg; lia).
    pose proof (Z.div_mod n (2 ^ sh) ltac:(lia)) as Hdm.
    pose proof (Z.mod_pos_bound n (2 ^ sh) ltac:(lia)) as Hr.
    set (q := n / 2 ^ sh) in *. set (r := n mod 2 ^ sh) in *.
    set (half := 2 ^ (sh - 1)) in *.
    destruct ((half <? r) || (r =? half) && Z.odd q) eqn:Hup;
      rewrite Z.shiftl_mul_pow2 by lia; (split; [by apply Z.divide_factor_r|]).
    + assert (half ≤ r) by
        (apply orb_true_iff in Hup as [?%Z.ltb_lt | [?%Z.eqb_eq _]%andb_true_iff]; lia).
      lia.
    + assert (r ≤ half) by
        (apply orb_false_iff in Hup as [?%Z.ltb_ge _]; lia).
      lia.
Qed.

(** *** Strength *)

(** The binary64 product against exact arithmetic. [0.7] is the double
    [mant_07 / 2^53], a little below 7/10: ten times [mant_07] is
    [7 * 2^53 - 4]. *)
Lemma length_chars (s : string) :
  List.length (list_ascii_of_string s) = String.length s.
Proof. induction s as [|c r IH]; simpl; by rewrite ?IH. Qed.

Lemma distinct_le_len (s : string) : 0 ≤ distinct s ≤ len s.
Proof.
  unfold distinct, len, charset. split; [lia|].
  rewrite <- length_chars. apply inj_le.
  unfold size, set_size. simpl.
  apply submseteq_length, NoDup_submseteq; [apply NoDup_elements|].
  intros c. rewrite elem_of_elements. apply elem_of_list_to_set.
Qed.

Lemma gt_times_07_table :
  forallb (λ n, forallb (λ d, Bool.eqb (Float64.gt_times_07 d n)
                                       (exceeds_seven_tenths d n))
                        (seqZ 0 (n + 1)))
          (seqZ 0 90) = true.
Proof. by vm_compute. Qed.

Lemma gt_times_07_exact (d n : Z) :
  0 ≤ n < 90 → 0 ≤ d ≤ n →
  Float64.gt_times_07 d n = exceeds_seven_tenths d n.
Proof.
  intros Hn Hd. pose proof gt_times_07_table as T.
  rewrite forallb_forall in T.
  specialize (T n). rewrite forallb_forall in T.
  apply Bool.eqb_prop, T.
  - apply list_elem_of_In, elem_of_seqZ. lia.
  - apply list_elem_of_In, elem_of_seqZ. lia.
Qed.

(** Below 90 characters the two comparisons agree. *)
Lemma uniqueness_point_exact (password : string) :
  len password < 90 →
  Float64.gt_times_07 (distinct password) (len password)
  = exceeds_seven_tenths (distinct password) (len password).
Proof.
  intros H. pose proof (distinct_le_len password).
  apply gt_times_07_exact; unfold len in *; lia.
Qed.

(** They part at length 90 with 63 distinct characters, where [90 * 0.7]
    rounds below 63. *)
Lemma uniqueness_point_at_90 :
  Float64.gt_times_07 63 90 = true ∧ exceeds_seven_tenths 63 90 = false.
Proof. by vm_compute. Qed.

(** The unit in the last place of [n * 0.7] for [n] below [2^48]. *)
Lemma times_07_ulp (n : Z) :
  0 ≤ n < 2 ^ 48 →
  2 ^ Z.max 0 (Float64.bits (n * Float64.mant_07) - 53) ≤ 2 ^ 48.
Proof.
  intros Hn. apply Z.pow_le_mono_r; [lia|].
  unfold Float64.bits.
  destruct (n * Float64.mant_07 =? 0) eqn:E; [lia|].
  apply Z.eqb_neq in E.
  assert (0 < n * Float64.mant_07) as Hpos by (unfold Float64.mant_07 in *; lia).
  assert (n * Float64.mant_07 < 2 ^ 101) as Hlt.
  { change (2 ^ 101) with (2 ^ 48 * 2 ^ 53).
    unfold Float64.mant_07.
    apply Z.le_lt_trans with (n * 2 ^ 53); [|apply Z.mul_lt_mono_pos_r; lia].
    apply Z.mul_le_mono_nonneg_l; lia. }
  apply Z.log2_lt_pow2 in Hlt; [lia|done].
Qed.

(** Away from the tie [distinct = 7/10 * length] the rounding of the
    product cannot change the comparison. *)
Lemma gt_times_07_off_tie (d n : Z) :
  0 ≤ n < 2 ^ 48 → 10 * d ≠ 7 * n →
  Float64.gt_times_07 d n = exceeds_seven_tenths d n.
Proof.
  intros Hn Hne.
  unfold Float64.gt_times_07, exceeds_seven_tenths, Float64.times_07.
  assert (0 ≤ n * Float64.mant_07) as Hx by (unfold Float64.mant_07; lia).
  destruct (round53_nearest _ Hx) as [_ Hr]. cbv zeta in Hr.
  pose proof (times_07_ulp n Hn) as Hu.
  assert (10 * (n * Float64.mant_07) = 7 * n * 2 ^ 53 - 4 * n) as E
    by (unfold Float64.mant_07; lia).
  set (r := Float64.round53 (n * Float64.mant_07)) in *.
  set (x := n * Float64.mant_07) in *.
  set (ulp := 2 ^ Z.max 0 (Float64.bits x - 53)) in *.
  change (2 ^ 48) with 281474976710656 in *.
  change (2 ^ 53) with 9007199254740992 in *.
  destruct (7 * n <? 10 * d) eqn:C.
  - apply Z.ltb_lt in C. apply Z.ltb_lt. lia.
  - apply Z.ltb_ge in C. apply Z.ltb_ge. lia.
Qed.

(** At a tie the rubric gives no point. *)
Lemma exceeds_seven_tenths_tie (d n : Z) :
  10 * d = 7 * n → exceeds_seven_tenths d n = false.
Proof. intros E. apply Z.ltb_ge. lia. Qed.

(** The scorer in terms of the rubric's points, its last point being the
    one the program computes. *)
Lemma strength_points (cfg : PasswordConfig) (password : string) :
  calculate_password_strength cfg password
  = rubric_class
      (rubric_total (special_chars cfg) password
       - point (exceeds_seven_tenths (distinct password) (len password))
       + point (Float64.gt_times_07 (distinct password) (len password))).
Proof.
  unfold calculate_password_strength, rubric_total, has_special.
  destruct (8 <=? len password), (12 <=? len password), (16 <=? len password),
    (sany isupper_char password), (sany islower_char password),
    (sany isdigit_char password),
    (sany (λ c, bool_decide (chr c ∈ special_chars cfg)) password),
    (Float64.gt_times_07 (distinct password) (len password)),
    (exceeds_seven_tenths (distinct password) (len password));
    reflexivity.
Qed.

(** C5 (amended): the scorer is the additive rubric: one point each for
    length at least 8, 12 and 16, for an upper-case letter, a lower-case
    letter and a digit, two for a configured special character, one when
    the number of distinct characters exceeds 0.7 × length; a total of at
    most 3 is weak, at most 6 medium, above that strong. This holds for
    every token shorter than 90 characters, and for every token whose
    number of distinct characters is not exactly 0.7 × length. At such a
    tie the rubric gives no point, and the scorer, which compares with the
    binary64 product [len * 0.7], gives the rubric's total or one more.
    ["aaaa1111"] totals 3 and is weak. *)
Theorem strength_is_rubric :
  (∀ (cfg : PasswordConfig) (password : string),
     len password < 90 →
     calculate_password_strength cfg password
     = rubric_class (rubric_total (special_chars cfg) password))
  ∧ (∀ (cfg : PasswordConfig) (password : string),
       len password < 2 ^ 48 →
       10 * distinct password ≠ 7 * len password →
       calculate_password_strength cfg password
       = rubric_class (rubric_total (special_chars cfg) password))
  ∧ (∀ (cfg : PasswordConfig) (password : string),
       len password < 2 ^ 48 →
       10 * distinct password = 7 * len password →
       calculate_password_strength cfg password
       = rubric_class (rubric_total (special_chars cfg) password)
       ∨ calculate_password_strength cfg password
         = rubric_class (rubric_total (special_chars cfg) password + 1))
  ∧ rubric_total default_chars "aaaa1111" = 3
  ∧ calculate_password_strength default_config "aaaa1111" = weak.
Proof.
  split; [|split; [|split; [|split; reflexivity]]].
  - intros cfg password H. rewrite strength_points, uniqueness_point_exact by done.
    f_equal. lia.
  - intros cfg password H Hne. rewrite strength_points.
    rewrite gt_times_07_off_tie by (unfold len in *; lia).
    f_equal. lia.
  - intros cfg password H E. rewrite strength_points.
    rewrite (exceeds_seven_tenths_tie _ _ E).
    destruct (Float64.gt_times_07 (distinct password) (len password)).
    + right. f_equal. simpl. lia.
    + left. f_equal. simpl. lia.
Qed.

(** *** Length bounds *)

Lemma generate_combinations_total (cfg : PasswordConfig) (glob : GlobalConfig)
    (profile : Profile) :
  ∃ passwords raw,
    generate_combinations listing cfg glob profile = Some passwords
    ∧ passwords = filter (in_bounds cfg) raw.
Proof.
  unfold generate_combinations.
  destruct (generate_date_variations_total (birthdate profile)) as [d1 ->].
  destruct (generate_date_variations_total (partner_birthdate profile)) as [d2 ->].
  destruct (generate_date_variations_total (child_birthdate profile)) as [d3 ->].
  eexists _, _. split; reflexivity.
Qed.

(** C4: every token of the set that [generate_combinations] returns has
    a length between [min_length] and [max_length], and so has every
    token of the sets of [improve_wordlist] and [merge_wordlists]. *)
Theorem final_tokens_in_bounds (cfg : PasswordConfig) (glob : GlobalConfig) :
  (∀ profile : Profile,
     ∃ passwords,
       generate_combinations listing cfg glob profile = Some passwords
       ∧ ∀ token, token ∈ passwords →
           min_length cfg ≤ len token ≤ max_length cfg)
  ∧ (∀ fs answer input_file token,
       token ∈ improve_wordlist cfg glob fs answer input_file →
       min_length cfg ≤ len token ≤ max_length cfg)
  ∧ (∀ fs files token,
       token ∈ merged_tokens cfg fs files →
       min_length cfg ≤ len token ≤ max_length cfg).
Proof.
  split; [|split].
  - intros profile.
    destruct (generate_combinations_total cfg glob profile)
      as (passwords & raw & E & ->).
    exists (filter (in_bounds cfg) raw). split; [done|].
    intros token [Hb _]%elem_of_filter. exact Hb.
  - intros fs answer input_file token. unfold improve_wordlist.
    destruct (fs !! input_file) as [lines|]; [|by intros ?%not_elem_of_empty].
    destruct (_ && _); [by intros ?%not_elem_of_empty|].
    unfold enhance. intros [Hb _]%elem_of_filter. exact Hb.
  - intros fs files token. unfold merged_tokens.
    intros [Hb _]%elem_of_filter. exact Hb.
Qed.

(** *** Improving a wordlist *)

(** C7: every loaded token whose length is within the bounds is in the
    enhanced set; [improve_wordlist] returns that set whenever the file
    is readable and the run is not called off at the large-wordlist
    prompt. *)
Theorem improve_wordlist_monotone (cfg : PasswordConfig) (glob : GlobalConfig) :
  (∀ (words : list string) (w : string),
     w ∈ words →
     min_length cfg ≤ len w ≤ max_length cfg →
     w ∈ enhance cfg glob words)
  ∧ (∀ fs answer input_file lines w,
       fs !! input_file = Some lines →
       Z.of_nat (List.length (load_words lines)) ≤ threshold glob
         ∨ lower answer = "y" →
       w ∈ load_words lines →
       min_length cfg ≤ len w ≤ max_length cfg →
       w ∈ improve_wordlist cfg glob fs answer input_file).
Proof.
  assert (∀ (words : list string) (w : string),
            w ∈ words → min_length cfg ≤ len w ≤ max_length cfg →
            w ∈ enhance cfg glob words) as core.
  { intros words w Hw Hb. unfold enhance.
    apply elem_of_filter. split; [exact Hb|].
    destruct (use_leet cfg), (use_special_chars cfg);
      repeat apply elem_of_union_l; by apply elem_of_list_to_set. }
  split; [exact core|].
  intros fs answer input_file lines w Hfile Hgo Hw Hb.
  unfold improve_wordlist. rewrite Hfile.
  assert ((threshold glob <? Z.of_nat (List.length (load_words lines)))
          && negb (String.eqb (lower answer) "y") = false) as ->.
  { destruct Hgo as [Hle | ->].
    - apply andb_false_intro1, Z.ltb_ge, Hle.
    - apply andb_false_intro2. reflexivity. }
  by apply core.
Qed.

(** *** Merging wordlists *)

Lemma merge_fold_elem (fs : gmap string (list string)) (files : list string)
    (acc : gset string) (x : string) :
  x ∈ foldl (λ merged file,
               match fs !! file with
               | None => merged
               | Some lines => merged ∪ list_to_set (load_words lines)
               end) acc files
  ↔ x ∈ acc ∨ ∃ file lines,
      file ∈ files ∧ fs !! file = Some lines ∧ x ∈ load_words lines.
Proof.
  revert acc. induction files as [|file files IH]; intros acc; simpl.
  - split; [by left|]. intros [H | (? & ? & []%not_elem_of_nil & _)]. done.
  - rewrite IH. destruct (fs !! file) as [lines|] eqn:E.
    + rewrite elem_of_union, elem_of_list_to_set. split.
      * intros [[H | H] | (f & l & Hf & Hl & Hx)]; [by left| |].
        -- right. exists file, lines. split; [left|done].
        -- right. exists f, l. split; [by right|done].
      * intros [H | (f & l & [-> | Hf]%elem_of_cons & Hl & Hx)].
        -- by left; left.
        -- left; right. congruence.
        -- right. by exists f, l.
    + split.
      * intros [H | (f & l & Hf & Hl & Hx)]; [by left|].
        right. exists f, l. split; [by right|done].
      * intros [H | (f & l & [-> | Hf]%elem_of_cons & Hl & Hx)];
          [by left|congruence|].
        right. by exists f, l.
Qed.

Lemma merged_tokens_elem (cfg : PasswordConfig) (fs : gmap string (list string))
    (files : list string) (x : string) :
  x ∈ merged_tokens cfg fs files
  ↔ in_bounds cfg x
    ∧ ∃ file lines,
        file ∈ files ∧ fs !! file = Some lines ∧ x ∈ load_words lines.
Proof.
  unfold merged_tokens. rewrite elem_of_filter, merge_fold_elem.
  split; intros [Hb H]; (split; [done|]).
  - by destruct H as [?%not_elem_of_empty|].
  - by right.
Qed.

Lemma sorted_NoDup (X : gset string) : NoDup (sorted listing X).
Proof. unfold sorted. rewrite merge_sort_Permutation. apply listing_NoDup. Qed.

(** C8: the merged set is the union of the tokens of the readable files
    cut down by the length filter; merging two files in either order
    gives the same set and the same exported text, and the exported
    lines have no duplicates. *)
Theorem merge_wordlists_commutative (cfg : PasswordConfig)
    (fs : gmap string (list string)) (a b : string) :
  (∀ x, x ∈ merged_tokens cfg fs [a; b]
        ↔ (min_length cfg ≤ len x ≤ max_length cfg)
          ∧ ∃ file lines,
              file ∈ [a; b] ∧ fs !! file = Some lines ∧ x ∈ load_words lines)
  ∧ merged_tokens cfg fs [a; b] = merged_tokens cfg fs [b; a]
  ∧ merge_wordlists listing cfg fs [a; b] = merge_wordlists listing cfg fs [b; a]
  ∧ NoDup (sorted listing (merged_tokens cfg fs [a; b])).
Proof.
  assert (merged_tokens cfg fs [a; b] = merged_tokens cfg fs [b; a]) as E.
  { apply set_eq. intros x. rewrite !merged_tokens_elem.
    split; intros [Hb (f & l & Hf & Hl & Hx)]; (split; [done|]);
      exists f, l; (split; [|done]);
      revert Hf; rewrite !elem_of_cons; tauto. }
  split; [intros x; apply merged_tokens_elem|].
  split; [exact E|]. split; [|apply sorted_NoDup].
  unfold merge_wordlists. by rewrite E.
Qed.

(** *** Base words *)

Lemma base_words_elem (profile : Profile) (x : string) :
  x ∈ base_word_list profile → x ∈ generate_base_words listing profile.
Proof.
  intros H. unfold generate_base_words, with_reversals.
  rewrite listing_elem, elem_of_list_to_set, elem_of_app. by left.
Qed.

(** C9 (amended): for a profile with a company, the base words contain
    the company as it is, its capitalized form and its form without
    spaces; the upper-case form is added for the name, the surname and
    each keyword. *)
Theorem base_words_company (profile : Profile) :
  (truthy (company profile) = true →
     company profile ∈ generate_base_words listing profile
     ∧ capitalize (company profile) ∈ generate_base_words listing profile
     ∧ replace " " "" (company profile) ∈ generate_base_words listing profile)
  ∧ (truthy (name profile) = true →
       upper (name profile) ∈ generate_base_words listing profile)
  ∧ (truthy (surname profile) = true →
       upper (surname profile) ∈ generate_base_words listing profile)
  ∧ (∀ kw, kw ∈ keywords profile →
       upper kw ∈ generate_base_words listing profile).
Proof.
  split; [|split; [|split]].
  - intros H; repeat split; apply base_words_elem;
      unfold base_word_list; rewrite H; simpl when;
      rewrite ?elem_of_app, ?elem_of_cons; tauto.
  - intros H. apply base_words_elem. unfold base_word_list. rewrite H.
    simpl when. rewrite ?elem_of_app, ?elem_of_cons. tauto.
  - intros H. apply base_words_elem. unfold base_word_list. rewrite H.
    simpl when. rewrite ?elem_of_app, ?elem_of_cons. tauto.
  - intros kw Hkw. apply base_words_elem. unfold base_word_list.
    assert (upper kw ∈ (kw ← keywords profile; [kw; capitalize kw; upper kw])) as Hin.
    { apply list_elem_of_bind. exists kw. split; [|done].
      rewrite !elem_of_cons. tauto. }
    rewrite ?elem_of_app. tauto.
Qed.

(** *** Statistics *)

Lemma py_div_nonzero (num den : Z) : den ≠ 0 → py_div num den = Some (num, den).
Proof. intros H. unfold py_div. by destruct (Z.eqb_spec den 0). Qed.

(** On a non-empty set the aggregator raises nothing and the record it
    returns carries the total. *)
Lemma statistics_total_nonempty (cfg : PasswordConfig) (now : string)
    (passwords : gset string) :
  passwords ≠ ∅ →
  ∃ stats,
    generate_statistics listing cfg now passwords = Some stats
    ∧ stats !! "total_passwords" = Some (SInt (Z.of_nat (size passwords))).
Proof.
  intros Hne. unfold generate_statistics.
  rewrite bool_decide_eq_false_2 by done.
  assert (Z.of_nat (size passwords) ≠ 0) as Hsize.
  { intros H. apply Hne, leibniz_equiv, size_empty_iff. lia. }
  destruct (listing passwords) as [|p ps] eqn:El.
  { by apply listing_nil in El. }
  rewrite !py_div_nonzero by done. simpl.
  eexists. split; [reflexivity|]. apply lookup_insert_eq.
Qed.

(** C6 (the code at the empty set): the aggregator returns the empty dict,
    which has no total, and [display_statistics] fails on it with a
    KeyError. *)
Theorem statistics_of_empty_set (cfg : PasswordConfig) (now : string) :
  generate_statistics listing cfg now ∅ = Some ∅
  ∧ field ∅ "total_passwords" = None
  ∧ display_statistics ∅ = None.
Proof. repeat split. Qed.

End Proofs.

(** ** The statements at concrete inputs *)

Lemma elements_listing (X : gset string) : elements X ≡ₚ elements X.
Proof. reflexivity. Qed.

Lemma date_variations_exact_witness :
  (String.length "24121985" = 8%nat ∧ isdigit "24121985" = true)
  ∧ ∃ vs, generate_date_variations elements "24121985" = Some vs
          ∧ NoDup vs
          ∧ ∀ x, x ∈ vs ↔ x ∈ enumerated_variants "24121985".
Proof.
  split; [split; reflexivity|].
  apply (proj1 (date_variations_exact elements elements_listing)); reflexivity.
Defined.

Lemma date_variations_empty_witness :
  String.length "2024" ≠ 8%nat
  ∧ generate_date_variations elements "2024" = Some [].
Proof.
  split; [discriminate|].
  destruct (date_variations_empty_iff elements elements_listing "2024")
    as (vs & E & [_ H]).
  rewrite E. f_equal. apply H. discriminate.
Defined.

(** C2 is refuted: eight characters with a letter among them are expanded. *)
Lemma date_variations_nondigit :
  String.length "1503199a" = 8%nat
  ∧ isdigit "1503199a" = false
  ∧ generate_date_variations elements "1503199a" ≠ Some [].
Proof. split; [reflexivity|]. split; [reflexivity|]. vm_compute. discriminate. Qed.

(** C3 is refuted: the default map does not leave the two s of
    ["password"] alone. *)
Lemma make_leet_password_refuted :
  make_leet default_global "password" ≠ "p4ssw0rd".
Proof. vm_compute. discriminate. Qed.

Lemma strength_is_rubric_witness :
  (len "Passw0rd!" < 90
   ∧ calculate_password_strength default_config "Passw0rd!"
     = rubric_class (rubric_total default_chars "Passw0rd!"))
  ∧ (len (ninety_chars +:+ "a") < 2 ^ 48
     ∧ 10 * distinct (ninety_chars +:+ "a") ≠ 7 * len (ninety_chars +:+ "a")
     ∧ calculate_password_strength default_config (ninety_chars +:+ "a")
       = rubric_class (rubric_total default_chars (ninety_chars +:+ "a")))
  ∧ (len ninety_chars < 2 ^ 48
     ∧ 10 * distinct ninety_chars = 7 * len ninety_chars
     ∧ (calculate_password_strength default_config ninety_chars
        = rubric_class (rubric_total default_chars ninety_chars)
        ∨ calculate_password_strength default_config ninety_chars
          = rubric_class (rubric_total default_chars ninety_chars + 1))).
Proof.
  assert (len "Passw0rd!" < 90) as H1 by reflexivity.
  assert (len (ninety_chars +:+ "a") < 2 ^ 48) as H2 by reflexivity.
  assert (10 * distinct (ninety_chars +:+ "a") ≠ 7 * len (ninety_chars +:+ "a"))
    as H3 by (vm_compute; discriminate).
  assert (len ninety_chars < 2 ^ 48) as H4 by reflexivity.
  assert (10 * distinct ninety_chars = 7 * len ninety_chars) as H5
    by (vm_compute; reflexivity).
  split; [split; [exact H1|]|split; [split; [exact H2|split; [exact H3|]]|
          split; [exact H4|split; [exact H5|]]]].
  - exact (proj1 strength_is_rubric default_config "Passw0rd!" H1).
  - exact (proj1 (proj2 strength_is_rubric) default_config _ H2 H3).
  - exact (proj1 (proj2 (proj2 strength_is_rubric)) default_config _ H4 H5).
Defined.

(** C5 is refuted as it stands: a token of 90 characters with 63 distinct
    ones, among them upper-case and lower-case letters and digits and no
    special character. Its distinct characters do not exceed
    0.7 × 90 = 63, so the rubric totals 6, medium; the scorer compares 63
    with the double [90 * 0.7], which is below 63, and rates the token
    strong. *)
Lemma strength_is_rubric_refuted :
  len ninety_chars = 90 ∧ distinct ninety_chars = 63
  ∧ rubric_total default_chars ninety_chars = 6
  ∧ rubric_class (rubric_total (special_chars default_config) ninety_chars) = medium
  ∧ calculate_password_strength default_config ninety_chars = strong
  ∧ calculate_password_strength default_config ninety_chars
    ≠ rubric_class (rubric_total (special_chars default_config) ninety_chars).
Proof. repeat split; by vm_compute. Qed.

Lemma make_leet_idempotent_witness :
  LEET default_global = default_LEET
  ∧ make_leet default_global (make_leet default_global "Boston Tea")
    = make_leet default_global "Boston Tea".
Proof.
  split; [reflexivity|].
  apply (make_leet_idempotent default_global "Boston Tea"). reflexivity.
Defined.

Lemma final_tokens_in_bounds_witness :
  "password" ∈ merged_tokens default_config demo_fs ["a.txt"; "b.txt"]
  ∧ min_length default_config ≤ len "password" ≤ max_length default_config.
Proof.
  assert ("password" ∈ merged_tokens default_config demo_fs ["a.txt"; "b.txt"]) as H.
  { apply (bool_decide_eq_true_1 _). vm_compute. reflexivity. }
  split; [exact H|].
  exact (proj2 (proj2 (final_tokens_in_bounds elements default_config default_global))
           demo_fs ["a.txt"; "b.txt"] "password" H).
Defined.

Lemma improve_wordlist_monotone_witness :
  (demo_fs !! "a.txt" = Some ["password" +:+ newline; "pw" +:+ newline; newline]
   ∧ (Z.of_nat (List.length (load_words
         ["password" +:+ newline; "pw" +:+ newline; newline]))
        ≤ threshold default_global ∨ lower "" = "y")
   ∧ "password" ∈ load_words ["password" +:+ newline; "pw" +:+ newline; newline]
   ∧ min_length default_config ≤ len "password" ≤ max_length default_config)
  ∧ "password" ∈ improve_wordlist default_config default_global demo_fs "" "a.txt".
Proof.
  assert (demo_fs !! "a.txt"
          = Some ["password" +:+ newline; "pw" +:+ newline; newline]) as H1
    by reflexivity.
  assert (Z.of_nat (List.length (load_words
            ["password" +:+ newline; "pw" +:+ newline; newline]))
            ≤ threshold default_global ∨ lower "" = "y") as H2
    by (left; vm_compute; discriminate).
  assert ("password" ∈ load_words
            ["password" +:+ newline; "pw" +:+ newline; newline]) as H3
    by (vm_compute; left).
  assert (min_length default_config ≤ len "password" ≤ max_length default_config)
    as H4 by (vm_compute; split; discriminate).
  split; [done|].
  exact (proj2 (improve_wordlist_monotone default_config default_global)
           demo_fs "" "a.txt" _ "password" H1 H2 H3 H4).
Defined.

Lemma merge_wordlists_commutative_witness :
  (∀ X : gset string, elements X ≡ₚ elements X)
  ∧ merged_tokens default_config demo_fs ["a.txt"; "b.txt"]
    = merged_tokens default_config demo_fs ["b.txt"; "a.txt"]
  ∧ merge_wordlists elements default_config demo_fs ["a.txt"; "b.txt"]
    = merge_wordlists elements default_config demo_fs ["b.txt"; "a.txt"]
  ∧ NoDup (sorted elements (merged_tokens default_config demo_fs ["a.txt"; "b.txt"])).
Proof.
  split; [exact elements_listing|].
  exact (proj2 (merge_wordlists_commutative elements elements_listing
                  default_config demo_fs "a.txt" "b.txt")).
Defined.

Lemma base_words_company_witness :
  truthy (company acme_profile) = true
  ∧ company acme_profile ∈ generate_base_words elements acme_profile
  ∧ capitalize (company acme_profile) ∈ generate_base_words elements acme_profile
  ∧ replace " " "" (company acme_profile) ∈ generate_base_words elements acme_profile.
Proof.
  split; [reflexivity|].
  apply (proj1 (base_words_company elements elements_listing acme_profile)).
  reflexivity.
Defined.

(** C9 is refuted: the base words of a profile with the company "acme"
    do not contain "ACME". *)
Lemma base_words_company_upper_missing :
  truthy (company acme_profile) = true
  ∧ upper (company acme_profile) = "ACME"
  ∧ "ACME" ∉ generate_base_words elements acme_profile.
Proof.
  split; [reflexivity|]. split; [reflexivity|].
  intros H. apply (bool_decide_pack _) in H. vm_compute in H. exact H.
Qed.

(** The run that meets the empty set: every token of the profile is
    filtered out, the statistics are the empty dict, and the display step
    raises. *)
Lemma run_interactive_empty_set :
  generate_combinations elements min_len_25 default_global jo_profile = Some ∅
  ∧ run_interactive elements min_len_25 default_global "2026-11-03T00:00:00" jo_profile
    = None.
Proof. split; by vm_compute. Qed.

(** ** Further properties of the program *)

(** *** Strings *)

Lemma sapp_cons (c : ascii) (s1 s2 : string) :
  String c s1 +:+ s2 = String c (s1 +:+ s2).
Proof. reflexivity. Qed.

Lemma sapp_nil_r (s : string) : s +:+ "" = s.
Proof. induction s as [|c r IH]; [done|]. by rewrite sapp_cons, IH. Qed.

Lemma sapp_assoc (s1 s2 s3 : string) : (s1 +:+ s2) +:+ s3 = s1 +:+ s2 +:+ s3.
Proof. induction s1 as [|c r IH]; [done|]. by rewrite !sapp_cons, IH. Qed.

Lemma length_sapp (s1 s2 : string) :
  String.length (s1 +:+ s2) = (String.length s1 + String.length s2)%nat.
Proof. induction s1 as [|c r IH]; [done|]. rewrite sapp_cons. simpl. by rewrite IH. Qed.

Lemma rev_app_spec (s1 s2 : string) :
  String.rev_app s1 s2 = String.rev_app s1 "" +:+ s2.
Proof.
  revert s2. induction s1 as [|c r IH]; intros s2; [done|]. simpl.
  rewrite (IH (String c s2)), (IH (String c "")). by rewrite sapp_assoc.
Qed.

Lemma reversed_cons (c : ascii) (s : string) :
  reversed (String c s) = reversed s +:+ chr c.
Proof. unfold reversed, String.rev. simpl. apply rev_app_spec. Qed.

Lemma reversed_app (s1 s2 : string) :
  reversed (s1 +:+ s2) = reversed s2 +:+ reversed s1.
Proof.
  induction s1 as [|c r IH].
  - by rewrite sapp_nil_r.
  - rewrite sapp_cons, !reversed_cons, IH. by rewrite sapp_assoc.
Qed.

Lemma reversed_involutive (s : string) : reversed (reversed s) = s.
Proof.
  induction s as [|c r IH]; [done|].
  by rewrite reversed_cons, reversed_app, IH.
Qed.

Lemma length_reversed (s : string) : String.length (reversed s) = String.length s.
Proof.
  induction s as [|c r IH]; [done|].
  rewrite reversed_cons, length_sapp, IH. simpl. lia.
Qed.

(** *** Stripping *)

Lemma lstrip_starts_clean (s : string) : starts_clean (lstrip s) = true.
Proof.
  induction s as [|c r IH]; [done|]. simpl.
  destruct (isspace_char c) eqn:E; [done|]. simpl. by rewrite E.
Qed.

Lemma lstrip_id (s : string) : starts_clean s = true → lstrip s = s.
Proof. destruct s as [|c r]; [done|]. simpl. by intros ->%negb_true_iff. Qed.

Lemma lstrip_suffix (s : string) : ∃ p, s = p +:+ lstrip s.
Proof.
  induction s as [|c r [p IH]]; [by exists ""|]. simpl.
  destruct (isspace_char c).
  - exists (String c p). by rewrite sapp_cons, <- IH.
  - by exists "".
Qed.

Lemma starts_clean_prefix (s p q : string) :
  starts_clean s = true → s = p +:+ q → starts_clean p = true.
Proof. intros H ->. by destruct p. Qed.

Lemma strip_clean (s : string) :
  starts_clean (strip s) = true ∧ starts_clean (reversed (strip s)) = true.
Proof.
  unfold strip. split.
  - destruct (lstrip_suffix (reversed (lstrip s))) as [p E].
    apply (f_equal reversed) in E.
    rewrite reversed_involutive, reversed_app in E.
    eapply starts_clean_prefix; [apply lstrip_starts_clean|exact E].
  - rewrite reversed_involutive. apply lstrip_starts_clean.
Qed.

Lemma strip_id (s : string) :
  starts_clean s = true → starts_clean (reversed s) = true → strip s = s.
Proof.
  intros H1 H2. unfold strip.
  by rewrite (lstrip_id s), (lstrip_id (reversed s)), reversed_involutive.
Qed.

Lemma strip_idempotent (s : string) : strip (strip s) = strip s.
Proof. apply strip_id; apply strip_clean. Qed.

Lemma load_words_elem (lines : list string) (w : string) :
  w ∈ load_words lines ↔ truthy w = true ∧ ∃ line, line ∈ lines ∧ w = strip line.
Proof.
  unfold load_words. rewrite list_elem_of_filter, list_elem_of_fmap.
  rewrite Is_true_true.
  split; intros [Ht (line & ? & ?)]; (split; [exact Ht|by exists line]).
Qed.

(** Every loaded word is non-empty and has white space at neither end:
    stripping it again changes nothing. *)
Theorem load_words_stripped (lines : list string) (w : string) :
  w ∈ load_words lines →
  w ≠ "" ∧ starts_clean w = true ∧ starts_clean (reversed w) = true
  ∧ strip w = w.
Proof.
  intros (Ht & line & _ & ->)%load_words_elem.
  split; [by destruct (strip line)|].
  pose proof (strip_clean line) as [H1 H2].
  split; [done|]. split; [done|]. apply strip_idempotent.
Qed.

(** *** Writing a wordlist and reading it back *)

Lemma contains_cons (a c : ascii) (r : string) :
  contains a (String c r) = false ↔ Ascii.eqb c a = false ∧ contains a r = false.
Proof.
  unfold contains. cbn [sany]. by rewrite orb_false_iff, (Ascii.eqb_sym a c).
Qed.

Lemma universal_newlines_app (t s : string) :
  contains cr t = false →
  universal_newlines (t +:+ s) = t +:+ universal_newlines s.
Proof.
  induction t as [|c r IH]; [done|].
  intros [Hc Hr]%contains_cons. rewrite !sapp_cons.
  cbn [universal_newlines]. by rewrite Hc, IH.
Qed.

Lemma universal_newlines_id (t : string) :
  contains cr t = false → universal_newlines t = t.
Proof.
  intros H. rewrite <- (sapp_nil_r t) at 1.
  by rewrite universal_newlines_app, sapp_nil_r.
Qed.

Lemma file_lines_app (t r : string) :
  contains lf t = false →
  file_lines (t +:+ String lf r) = (t +:+ newline) :: file_lines r.
Proof.
  induction t as [|c t IH]; [done|].
  intros [Hc Ht]%contains_cons. rewrite !sapp_cons.
  cbn [file_lines]. by rewrite Hc, IH.
Qed.

Lemma file_lines_single (t : string) :
  contains lf t = false → truthy t = true → file_lines t = [t].
Proof.
  induction t as [|c t IH]; [done|].
  intros [Hc Ht]%contains_cons _. cbn [file_lines]. rewrite Hc.
  destruct t as [|d t]; [done|]. by rewrite IH.
Qed.

Lemma strip_line (t : string) :
  starts_clean t = true → starts_clean (reversed t) = true →
  strip (t +:+ newline) = t.
Proof.
  intros H1 H2. destruct t as [|c t]; [done|]. unfold strip.
  rewrite (lstrip_id (String c t +:+ newline)) by done.
  rewrite reversed_app.
  change (reversed newline +:+ reversed (String c t))
    with (String lf (reversed (String c t))).
  change (lstrip (String lf (reversed (String c t))))
    with (lstrip (reversed (String c t))).
  by rewrite lstrip_id, reversed_involutive.
Qed.

Lemma load_words_cons (line : string) (lines : list string) :
  load_words (line :: lines)
  = (if truthy (strip line) then [strip line] else []) ++ load_words lines.
Proof.
  unfold load_words. rewrite fmap_cons, filter_cons.
  destruct (truthy (strip line)) eqn:E; case_decide as H; done.
Qed.

Lemma clean_inv (t : string) :
  clean t = true →
  truthy t = true ∧ starts_clean t = true ∧ starts_clean (reversed t) = true
  ∧ contains lf t = false ∧ contains cr t = false.
Proof.
  unfold clean. rewrite !andb_true_iff, !negb_true_iff. tauto.
Qed.

Lemma read_words_concat (ts : list string) :
  Forall (λ t, clean t = true) ts →
  read_words (String.concat newline ts) = ts.
Proof.
  unfold read_words. induction 1 as [|t ts Ht Hts IH]; [done|].
  apply clean_inv in Ht as (Hne & Hs & He & Hlf & Hcr).
  destruct ts as [|t' ts].
  - simpl. rewrite universal_newlines_id, file_lines_single by done.
    rewrite load_words_cons, strip_id, Hne by done. done.
  - change (String.concat newline (t :: t' :: ts))
      with (t +:+ String lf (String.concat newline (t' :: ts))).
    rewrite universal_newlines_app by done.
    change (universal_newlines (String lf ?x))
      with (String lf (universal_newlines x)).
    rewrite file_lines_app by done.
    rewrite load_words_cons, strip_line, Hne, IH by done. done.
Qed.

Section Exports.

Context (listing : gset string → list string).
Context (listing_perm : ∀ X : gset string, listing X ≡ₚ elements X).

Lemma sorted_perm (X : gset string) : sorted listing X ≡ₚ elements X.
Proof. unfold sorted. by rewrite merge_sort_Permutation. Qed.

Lemma sorted_Sorted (l : gset string → list string) (X : gset string) :
  Sorted String.le (sorted l X).
Proof. apply (Sorted_merge_sort _). Qed.

(** The exported wordlist does not depend on the order in which the
    interpreter enumerates the set: the lines are the tokens of the set,
    each once, in ascending order, whatever that enumeration is. *)
Theorem export_txt_canonical (X : gset string) :
  sorted listing X ≡ₚ elements X
  ∧ StronglySorted String.le (sorted listing X)
  ∧ sorted listing X = sorted elements X
  ∧ export_txt listing X = export_txt elements X.
Proof.
  assert (sorted listing X = sorted elements X) as E.
  { apply (Sorted_unique String.le); [apply sorted_Sorted..|].
    rewrite sorted_perm. unfold sorted. by rewrite merge_sort_Permutation. }
  split; [apply sorted_perm|]. split.
  - apply Sorted_StronglySorted; [apply _|apply sorted_Sorted].
  - split; [exact E|]. unfold export_txt. by rewrite E.
Qed.

(** A wordlist of clean tokens that is exported and read back, as
    [improve_wordlist] and [merge_wordlists] read a file, gives the same
    tokens in the exported order. *)
Theorem export_txt_read_back (X : gset string) :
  (∀ t, t ∈ X → clean t = true) →
  read_words (export_txt listing X) = sorted listing X
  ∧ list_to_set (read_words (export_txt listing X)) = X.
Proof.
  intros Hclean.
  assert (read_words (export_txt listing X) = sorted listing X) as E.
  { unfold export_txt. apply read_words_concat, Forall_forall.
    intros t Ht. apply Hclean. by rewrite sorted_perm, elem_of_elements in Ht. }
  split; [exact E|]. rewrite E. apply set_eq. intros t.
  by rewrite elem_of_list_to_set, sorted_perm, elem_of_elements.
Qed.

(** *** Merging any number of files *)

(** The merged set depends only on which readable files are named: their
    order, repetitions and the unreadable names among them do not matter. *)
Theorem merged_tokens_readable_files (cfg : PasswordConfig)
    (fs : gmap string (list string)) (files files' : list string) :
  (∀ f, is_Some (fs !! f) → f ∈ files ↔ f ∈ files') →
  merged_tokens cfg fs files = merged_tokens cfg fs files'.
Proof.
  intros H. apply set_eq. intros x. rewrite !merged_tokens_elem.
  split; intros [Hb (f & l & Hf & Hl & Hx)]; (split; [done|]);
    exists f, l; (split; [|done]); apply (H f); eauto.
Qed.

End Exports.

(** *** The combination engine, step by step *)

Section Combinations.

Context (listing : gset string → list string).
Context (listing_perm : ∀ X : gset string, listing X ≡ₚ elements X).
Context (cfg : PasswordConfig) (glob : GlobalConfig).

Lemma generate_combinations_steps (profile : Profile) :
  generate_combinations listing cfg glob profile
  = (d_self ← generate_date_variations listing (birthdate profile);
     d_partner ← generate_date_variations listing (partner_birthdate profile);
     d_child ← generate_date_variations listing (child_birthdate profile);
     Some (filter (in_bounds cfg)
             (before_filter listing cfg glob profile
                (generate_base_words listing profile)
                (listing (list_to_set (d_self ++ d_partner ++ d_child)))))).
Proof. reflexivity. Qed.

Lemma numbers_step_incl (bw : list string) (X : gset string) :
  X ⊆ numbers_step cfg bw X.
Proof.
  intros x Hx. unfold numbers_step.
  destruct (use_numbers cfg); [by apply elem_of_union_l|done].
Qed.

Lemma special_step_incl (bw : list string) (X : gset string) :
  X ⊆ special_step cfg bw X.
Proof.
  intros x Hx. unfold special_step.
  destruct (use_special_chars cfg); [by apply elem_of_union_l|done].
Qed.

Lemma modern_step_incl (bw : list string) (X : gset string) :
  X ⊆ modern_step cfg bw X.
Proof.
  intros x Hx. unfold modern_step.
  destruct (use_modern_terms cfg); [by apply elem_of_union_l|done].
Qed.

Lemma email_step_incl (profile : Profile) (X : gset string) :
  X ⊆ email_step profile X.
Proof.
  intros x Hx. unfold email_step.
  destruct (_ && _); [by apply elem_of_union_l|done].
Qed.

Lemma phone_step_incl (profile : Profile) (X : gset string) :
  X ⊆ phone_step profile X.
Proof.
  intros x Hx. unfold phone_step.
  destruct (truthy _); [|done]. destruct (4 <=? _); [|done].
  by repeat apply elem_of_union_l.
Qed.

Lemma leet_step_incl (X : gset string) : X ⊆ leet_step listing cfg glob X.
Proof.
  intros x Hx. unfold leet_step.
  destruct (use_leet cfg); [by apply elem_of_union_l|done].
Qed.

Lemma before_filter_seed (profile : Profile) (bw dates : list string) :
  seed_step cfg bw dates ⊆ before_filter listing cfg glob profile bw dates.
Proof.
  intros x Hx. unfold before_filter, before_leet.
  by apply leet_step_incl, phone_step_incl, email_step_incl, modern_step_incl,
    special_step_incl, numbers_step_incl.
Qed.

Lemma seed_step_elem (bw dates : list string) (x : string) :
  x ∈ seed_step cfg bw dates ↔
    x ∈ bw
    ∨ (∃ word date sep,
         word ∈ bw ∧ date ∈ dates ∧ sep ∈ ["" ; "_"; "-"]
         ∧ (x = word +:+ sep +:+ date ∨ x = date +:+ sep +:+ word))
    ∨ (∃ word year sep,
         word ∈ bw ∧ year ∈ last_items 10 (year_range cfg)
         ∧ sep ∈ [""; "_"; "-"]
         ∧ (x = word +:+ sep +:+ year ∨ x = year +:+ sep +:+ word)).
Proof.
  unfold seed_step. cbv zeta.
  change (take 3 separators) with [""; "_"; "-"].
  rewrite !elem_of_union, !elem_of_list_to_set, elem_of_empty.
  assert (∀ (l1 l2 : list string),
            x ∈ (word ← l1; d ← l2; sep ← [""; "_"; "-"];
                 [word +:+ sep +:+ d; d +:+ sep +:+ word])
            ↔ ∃ word d sep, word ∈ l1 ∧ d ∈ l2 ∧ sep ∈ [""; "_"; "-"]
                ∧ (x = word +:+ sep +:+ d ∨ x = d +:+ sep +:+ word)) as B.
  { intros l1 l2. rewrite list_elem_of_bind. split.
    - intros (w & (d & (sep & Hx & Hsep)%list_elem_of_bind & Hd)%list_elem_of_bind & Hw).
      exists w, d, sep. repeat (split; [done|]).
      revert Hx. rewrite !elem_of_cons, elem_of_nil. tauto.
    - intros (w & d & sep & Hw & Hd & Hsep & Hx).
      exists w. split; [|done]. apply list_elem_of_bind. exists d. split; [|done].
      apply list_elem_of_bind. exists sep. split; [|done].
      rewrite !elem_of_cons. tauto. }
  rewrite !B. tauto.
Qed.

(** What the engine is sure to generate: every base word, and every base
    word joined to a date fragment or to one of the last ten years by
    nothing, an underscore or a hyphen, in both orders, as far as the
    length bounds admit the token. *)
Theorem combinations_contain (profile : Profile) (passwords : gset string) :
  generate_combinations listing cfg glob profile = Some passwords →
  (∀ word,
     word ∈ generate_base_words listing profile →
     in_bounds cfg word → word ∈ passwords)
  ∧ (∀ word field variations date sep,
       word ∈ generate_base_words listing profile →
       field ∈ [birthdate profile; partner_birthdate profile;
                child_birthdate profile] →
       generate_date_variations listing field = Some variations →
       date ∈ variations →
       sep ∈ [""; "_"; "-"] →
       (in_bounds cfg (word +:+ sep +:+ date) →
          word +:+ sep +:+ date ∈ passwords)
       ∧ (in_bounds cfg (date +:+ sep +:+ word) →
            date +:+ sep +:+ word ∈ passwords))
  ∧ (∀ word year sep,
       word ∈ generate_base_words listing profile →
       year ∈ last_items 10 (year_range cfg) →
       sep ∈ [""; "_"; "-"] →
       (in_bounds cfg (word +:+ sep +:+ year) →
          word +:+ sep +:+ year ∈ passwords)
       ∧ (in_bounds cfg (year +:+ sep +:+ word) →
            year +:+ sep +:+ word ∈ passwords)).
Proof.
  rewrite generate_combinations_steps.
  destruct (generate_date_variations listing (birthdate profile)) as [d1|] eqn:E1;
    [|done].
  destruct (generate_date_variations listing (partner_birthdate profile))
    as [d2|] eqn:E2; [|done].
  destruct (generate_date_variations listing (child_birthdate profile))
    as [d3|] eqn:E3; [|done].
  simpl. intros [= <-].
  assert (∀ x, x ∈ seed_step cfg (generate_base_words listing profile)
                 (listing (list_to_set (d1 ++ d2 ++ d3))) →
               in_bounds cfg x →
               x ∈ filter (in_bounds cfg)
                     (before_filter listing cfg glob profile
                        (generate_base_words listing profile)
                        (listing (list_to_set (d1 ++ d2 ++ d3))))) as K.
  { intros x Hx Hb. apply elem_of_filter. split; [done|].
    by apply before_filter_seed. }
  split; [|split].
  - intros word Hw Hb. apply K; [|done]. apply seed_step_elem. by left.
  - intros word field variations date sep Hw Hfield Hv Hdate Hsep.
    assert (date ∈ listing (list_to_set (d1 ++ d2 ++ d3))) as Hd.
    { rewrite (listing_elem listing listing_perm).
      rewrite elem_of_list_to_set, !elem_of_app.
      revert Hfield. rewrite !elem_of_cons, elem_of_nil.
      intros [-> | [-> | [-> | []]]]; rewrite Hv in *; simplify_eq; tauto. }
    split; intros Hb; (apply K; [|done]); apply seed_step_elem; right; left;
      exists word, date, sep; repeat (split; [done|]); tauto.
  - intros word year sep Hw Hyear Hsep.
    split; intros Hb; (apply K; [|done]); apply seed_step_elem; right; right;
      exists word, year, sep; repeat (split; [done|]); tauto.
Qed.

Lemma combinations_seed (profile : Profile) (passwords : gset string) :
  generate_combinations listing cfg glob profile = Some passwords →
  ∃ dates,
    (∀ field variations date,
       field ∈ [birthdate profile; partner_birthdate profile;
                child_birthdate profile] →
       generate_date_variations listing field = Some variations →
       date ∈ variations → date ∈ dates)
    ∧ ∀ x, x ∈ seed_step cfg (generate_base_words listing profile) dates →
           in_bounds cfg x → x ∈ passwords.
Proof.
  rewrite generate_combinations_steps.
  destruct (generate_date_variations listing (birthdate profile)) as [d1|] eqn:E1;
    [|done].
  destruct (generate_date_variations listing (partner_birthdate profile))
    as [d2|] eqn:E2; [|done].
  destruct (generate_date_variations listing (child_birthdate profile))
    as [d3|] eqn:E3; [|done].
  simpl. intros [= <-].
  exists (listing (list_to_set (d1 ++ d2 ++ d3))). split.
  - intros field variations date Hfield Hv Hdate.
    rewrite (listing_elem listing listing_perm).
    rewrite elem_of_list_to_set, !elem_of_app.
    revert Hfield. rewrite !elem_of_cons, elem_of_nil.
    intros [-> | [-> | [-> | []]]]; rewrite Hv in *; simplify_eq; tauto.
  - intros x Hx Hb. apply elem_of_filter. split; [done|].
    by apply before_filter_seed.
Qed.

(** An empty keyword, such as a trailing comma in the list of keywords
    leaves, makes the empty string a base word; every date fragment and
    each of the last ten years is then a candidate by itself, as far as
    the length bounds admit it. *)
Theorem empty_keyword_fragments (profile : Profile) (passwords : gset string) :
  "" ∈ keywords profile →
  generate_combinations listing cfg glob profile = Some passwords →
  "" ∈ generate_base_words listing profile
  ∧ (∀ field variations date,
       field ∈ [birthdate profile; partner_birthdate profile;
                child_birthdate profile] →
       generate_date_variations listing field = Some variations →
       date ∈ variations → in_bounds cfg date → date ∈ passwords)
  ∧ (∀ year, year ∈ last_items 10 (year_range cfg) →
       in_bounds cfg year → year ∈ passwords).
Proof.
  intros Hkw Hgc.
  assert ("" ∈ generate_base_words listing profile) as Hbase.
  { apply (base_words_elem listing listing_perm). unfold base_word_list.
    assert ("" ∈ (kw ← keywords profile; [kw; capitalize kw; upper kw])) as H.
    { apply list_elem_of_bind. exists "". split; [left|done]. }
    rewrite !elem_of_app. tauto. }
  destruct (combinations_seed profile passwords Hgc) as (dates & Hdates & Hseed).
  split; [exact Hbase|]. split.
  - intros field variations date Hfield Hv Hdate Hb. apply Hseed; [|done].
    apply seed_step_elem. right; left. exists "", date, "".
    split; [done|]. split; [by eapply Hdates|]. split; [left|by left].
  - intros year Hyear Hb. apply Hseed; [|done].
    apply seed_step_elem. right; right. exists "", year, "".
    split; [done|]. split; [done|]. split; [left|by left].
Qed.

(** With a lower bound above the upper bound the engine returns the empty
    set for every profile, and the run ends in the exception of the
    display step. *)
Theorem combinations_empty_bounds (profile : Profile) (now : string) :
  max_length cfg < min_length cfg →
  generate_combinations listing cfg glob profile = Some ∅
  ∧ run_interactive listing cfg glob now profile = None.
Proof.
  intros Hlt.
  destruct (generate_combinations_total listing cfg glob profile)
    as (passwords & raw & E & ->).
  assert (filter (in_bounds cfg) raw = ∅) as Hempty.
  { apply set_eq. intros x. rewrite elem_of_filter, elem_of_empty.
    unfold in_bounds. split; [lia|done]. }
  rewrite Hempty in E. split; [exact E|].
  unfold run_interactive. rewrite E. reflexivity.
Qed.

(** *** Base words *)

(** Among the base words, those longer than three characters come with
    their reversals. *)
Theorem base_words_reversal_closed (profile : Profile) (word : string) :
  word ∈ generate_base_words listing profile →
  3 < len word →
  reversed word ∈ generate_base_words listing profile.
Proof.
  unfold generate_base_words, with_reversals.
  rewrite !(listing_elem listing listing_perm), !elem_of_list_to_set, !elem_of_app.
  rewrite !list_elem_of_fmap. setoid_rewrite list_elem_of_filter.
  intros [Hw | (u & -> & Hu & Hin)] Hlen.
  - right. by exists word.
  - left. by rewrite reversed_involutive.
Qed.

(** The nickname of a partner or of a child is used only when the name of
    that partner or child is given: without the name the nickname changes
    neither the base words nor the generated set. *)
Theorem orphan_nicknames_unused (profile : Profile) :
  generate_base_words listing profile
  = generate_base_words listing (without_orphan_nicknames profile)
  ∧ generate_combinations listing cfg glob profile
    = generate_combinations listing cfg glob (without_orphan_nicknames profile).
Proof.
  assert (base_word_list profile
          = base_word_list (without_orphan_nicknames profile)) as E.
  { unfold base_word_list, without_orphan_nicknames. simpl.
    by destruct (truthy (partner_name profile)), (truthy (child_name profile)). }
  assert (generate_base_words listing profile
          = generate_base_words listing (without_orphan_nicknames profile)) as E'.
  { unfold generate_base_words. by rewrite E. }
  split; [exact E'|].
  rewrite !generate_combinations_steps, <- E'. reflexivity.
Qed.

End Combinations.

(** *** Statistics of a non-empty set *)

Section Statistics.

Context (listing : gset string → list string).
Context (listing_perm : ∀ X : gset string, listing X ≡ₚ elements X).
Context (cfg : PasswordConfig).

Lemma get0_count_up (k key : string) (d : gmap string Z) :
  get0 k (count_up key d) = if decide (key = k) then get0 k d + 1 else get0 k d.
Proof.
  unfold get0, count_up. rewrite lookup_insert. by case_decide; subst.
Qed.

Lemma count_up_other (k key : string) (d : gmap string Z) :
  key ≠ k → count_up key d !! k = d !! k.
Proof. intros H. unfold count_up. by rewrite lookup_insert_ne. Qed.

Lemma strength_counts (pwds : list string) (acc : gmap string Z) :
  let dist :=
    foldl (λ dist pwd,
             count_up (strength_name (calculate_password_strength cfg pwd)) dist)
          acc pwds in
  get0 "weak" dist + get0 "medium" dist + get0 "strong" dist
  = get0 "weak" acc + get0 "medium" acc + get0 "strong" acc
    + Z.of_nat (List.length pwds)
  ∧ ∀ k, k ∉ ["weak"; "medium"; "strong"] → dist !! k = acc !! k.
Proof.
  revert acc. induction pwds as [|p ps IH]; intros acc; simpl.
  - split; [lia|done].
  - destruct (IH (count_up (strength_name (calculate_password_strength cfg p)) acc))
      as [IH1 IH2].
    split.
    + rewrite IH1, !get0_count_up.
      destruct (calculate_password_strength cfg p); simpl;
        repeat case_decide; try done; lia.
    + intros k Hk. rewrite IH2 by done. apply count_up_other.
      intros <-. apply Hk.
      destruct (calculate_password_strength cfg p); simpl;
        rewrite !elem_of_cons; tauto.
Qed.

Lemma foldl_min_spec (x : Z) (l : list Z) :
  (∀ y, y ∈ x :: l → foldl Z.min x l ≤ y) ∧ foldl Z.min x l ∈ x :: l.
Proof.
  revert x. induction l as [|z l IH]; intros x; simpl.
  - split; [|left]. intros y ->%list_elem_of_singleton. lia.
  - destruct (IH (Z.min x z)) as [H1 H2]. split.
    + intros y Hy.
      assert (foldl Z.min (Z.min x z) l ≤ Z.min x z) by (apply H1; left).
      apply elem_of_cons in Hy as [-> | Hy]; [lia|].
      apply elem_of_cons in Hy as [-> | Hy]; [lia|].
      apply H1. by right.
    + apply elem_of_cons in H2 as [E | H2].
      * rewrite E. destruct (Z.min_spec x z) as [[_ ->] | [_ ->]];
          [left|right; left].
      * by right; right.
Qed.

Lemma foldl_max_spec (x : Z) (l : list Z) :
  (∀ y, y ∈ x :: l → y ≤ foldl Z.max x l) ∧ foldl Z.max x l ∈ x :: l.
Proof.
  revert x. induction l as [|z l IH]; intros x; simpl.
  - split; [|left]. intros y ->%list_elem_of_singleton. lia.
  - destruct (IH (Z.max x z)) as [H1 H2]. split.
    + intros y Hy.
      assert (Z.max x z ≤ foldl Z.max (Z.max x z) l) by (apply H1; left).
      apply elem_of_cons in Hy as [-> | Hy]; [lia|].
      apply elem_of_cons in Hy as [-> | Hy]; [lia|].
      apply H1. by right.
    + apply elem_of_cons in H2 as [E | H2].
      * rewrite E. destruct (Z.max_spec x z) as [[_ ->] | [_ ->]];
          [right; left|left].
      * by right; right.
Qed.

(** The record of a non-empty set, field by field. *)
Lemma generate_statistics_record (now : string) (passwords : gset string) :
  passwords ≠ ∅ →
  ∃ stats lo hi,
    generate_statistics listing cfg now passwords = Some stats
    ∧ py_min (len <$> listing passwords) = Some lo
    ∧ py_max (len <$> listing passwords) = Some hi
    ∧ stats !! "total_passwords" = Some (SInt (Z.of_nat (size passwords)))
    ∧ stats !! "min_length" = Some (SInt lo)
    ∧ stats !! "max_length" = Some (SInt hi)
    ∧ stats !! "strength_distribution"
      = Some (SCounts
          (foldl (λ dist pwd,
                    count_up (strength_name (calculate_password_strength cfg pwd))
                             dist)
                 ∅ (listing passwords)))
    ∧ stats !! "char_type_distribution"
      = Some (SCounts
          {[ "upper" := Z.of_nat (List.length
                          (List.filter (sany isupper_char) (listing passwords)));
             "lower" := Z.of_nat (List.length
                          (List.filter (sany islower_char) (listing passwords)));
             "digit" := Z.of_nat (List.length
                          (List.filter (sany isdigit_char) (listing passwords)));
             "special" := Z.of_nat (List.length
                          (List.filter (has_special cfg) (listing passwords))) ]})
    ∧ is_Some (display_statistics stats).
Proof.
  intros Hne. unfold generate_statistics.
  rewrite bool_decide_eq_false_2 by done.
  assert (Z.of_nat (size passwords) ≠ 0) as Hsize.
  { intros H. apply Hne, leibniz_equiv, size_empty_iff. lia. }
  destruct (listing passwords) as [|p ps] eqn:El.
  { by apply (listing_nil listing listing_perm) in El. }
  rewrite !py_div_nonzero by done.
  eexists _, _, _. split; [reflexivity|].
  split; [reflexivity|]. split; [reflexivity|].
  repeat (split; [by simplify_map_eq|]).
  unfold display_statistics, nested, field. simplify_map_eq. eauto.
Qed.

(** A run reaches the end of the display step exactly when the generated
    set is not empty. *)
Theorem run_interactive_returns_iff (glob : GlobalConfig) (now : string)
    (profile : Profile) (passwords : gset string) :
  generate_combinations listing cfg glob profile = Some passwords →
  is_Some (run_interactive listing cfg glob now profile) ↔ passwords ≠ ∅.
Proof.
  intros E. unfold run_interactive. rewrite E. simpl. split.
  - intros [out H] ->. by vm_compute in H.
  - intros Hne.
    destruct (generate_statistics_record now passwords Hne)
      as (stats & lo & hi & -> & _ & _ & _ & _ & _ & _ & _ & Hd).
    exact Hd.
Qed.

(** The strength histogram of a non-empty set has no class besides weak,
    medium and strong, and its three counts add up to the total. *)
Theorem statistics_strength_sum (now : string) (passwords : gset string) :
  passwords ≠ ∅ →
  ∃ stats dist,
    generate_statistics listing cfg now passwords = Some stats
    ∧ stats !! "total_passwords" = Some (SInt (Z.of_nat (size passwords)))
    ∧ stats !! "strength_distribution" = Some (SCounts dist)
    ∧ get0 "weak" dist + get0 "medium" dist + get0 "strong" dist
      = Z.of_nat (size passwords)
    ∧ ∀ k, k ∉ ["weak"; "medium"; "strong"] → dist !! k = None.
Proof.
  intros Hne.
  destruct (generate_statistics_record now passwords Hne)
    as (stats & lo & hi & E & _ & _ & Ht & _ & _ & Hd & _).
  eexists _, _. split; [exact E|]. split; [exact Ht|]. split; [exact Hd|].
  destruct (strength_counts (listing passwords) ∅) as [H1 H2].
  split.
  - rewrite H1, (listing_length listing listing_perm). by vm_compute.
  - intros k Hk. by rewrite H2.
Qed.

(** The minimum and maximum lengths recorded for a non-empty set bound
    the length of every token, and each is the length of some token. *)
Theorem statistics_min_max (now : string) (passwords : gset string) :
  passwords ≠ ∅ →
  ∃ stats lo hi,
    generate_statistics listing cfg now passwords = Some stats
    ∧ stats !! "min_length" = Some (SInt lo)
    ∧ stats !! "max_length" = Some (SInt hi)
    ∧ (∀ p, p ∈ passwords → lo ≤ len p ≤ hi)
    ∧ (∃ p, p ∈ passwords ∧ len p = lo)
    ∧ (∃ p, p ∈ passwords ∧ len p = hi).
Proof.
  intros Hne.
  destruct (generate_statistics_record now passwords Hne)
    as (stats & lo & hi & E & Hlo & Hhi & _ & Hmin & Hmax & _).
  exists stats, lo, hi. split; [exact E|]. split; [exact Hmin|].
  split; [exact Hmax|].
  assert (∀ n, n ∈ len <$> listing passwords ↔ ∃ p, p ∈ passwords ∧ len p = n) as M.
  { intros n. rewrite list_elem_of_fmap.
    setoid_rewrite (listing_elem listing listing_perm).
    split; [intros (p & -> & Hp)|intros (p & Hp & <-)]; by exists p. }
  destruct (len <$> listing passwords) as [|x l] eqn:El; [done|].
  simpl in Hlo, Hhi. injection Hlo as <-. injection Hhi as <-.
  destruct (foldl_min_spec x l) as [L1 L2], (foldl_max_spec x l) as [U1 U2].
  split; [|split].
  - intros p Hp. split; [apply L1|apply U1]; apply M; by exists p.
  - by apply M.
  - by apply M.
Qed.

Lemma filter_length_perm {A} (p : A → bool) (l1 l2 : list A) :
  l1 ≡ₚ l2 → List.length (List.filter p l1) = List.length (List.filter p l2).
Proof.
  induction 1 as [|x l l' _ IH|x y l|l l' l'' _ IH1 _ IH2]; simpl.
  - done.
  - destruct (p x); simpl; by rewrite IH.
  - by destruct (p x), (p y).
  - by rewrite IH1.
Qed.

Lemma flag_count_rows (i : nat) (flag : string → bool) (pwds : list string) :
  (∀ pwd, flagged i (csv_row cfg pwd) = flag pwd) →
  List.length (List.filter (flagged i) (csv_row cfg <$> pwds))
  = List.length (List.filter flag pwds).
Proof.
  intros H. induction pwds as [|p ps IH]; [done|].
  rewrite fmap_cons. cbn [List.filter]. rewrite H.
  destruct (flag p); cbn [List.length]; by rewrite IH.
Qed.

(** The CSV export and the statistics agree: there is one row per token
    after the header, and the count of each character class in the
    statistics is the number of rows whose column for that class is true. *)
Theorem export_csv_matches_statistics (now : string) (passwords : gset string) :
  passwords ≠ ∅ →
  ∃ stats types,
    generate_statistics listing cfg now passwords = Some stats
    ∧ stats !! "char_type_distribution" = Some (SCounts types)
    ∧ List.length (export_csv listing cfg passwords) = S (size passwords)
    ∧ types !! "upper" = Some (flag_count 3 (export_csv listing cfg passwords))
    ∧ types !! "lower" = Some (flag_count 4 (export_csv listing cfg passwords))
    ∧ types !! "digit" = Some (flag_count 5 (export_csv listing cfg passwords))
    ∧ types !! "special" = Some (flag_count 6 (export_csv listing cfg passwords)).
Proof.
  intros Hne.
  destruct (generate_statistics_record now passwords Hne)
    as (stats & lo & hi & E & _ & _ & _ & _ & _ & _ & Hc & _).
  eexists _, _. split; [exact E|]. split; [exact Hc|].
  assert (sorted listing passwords ≡ₚ listing passwords) as P
    by apply merge_sort_Permutation.
  split.
  { unfold export_csv. cbn [List.length]. rewrite length_fmap, P.
    by rewrite (listing_length listing listing_perm). }
  assert (∀ i flag, (∀ pwd, flagged i (csv_row cfg pwd) = flag pwd) →
            flag_count i (export_csv listing cfg passwords)
            = Z.of_nat (List.length (List.filter flag (listing passwords)))) as K.
  { intros i flag H. unfold flag_count, export_csv.
    assert (flagged i csv_header = false) as Hh.
    { unfold flagged, csv_header.
      do 7 (destruct i as [|i]; [done|]). done. }
    cbn [List.filter]. rewrite Hh, (flag_count_rows i flag) by done.
    by rewrite (filter_length_perm flag _ _ P). }
  assert (∀ i row b, row !! i = Some (CBool b) → flagged i row = b) as F.
  { intros i row b H. unfold flagged. rewrite H. by destruct b. }
  rewrite (K 3%nat (sany isupper_char)), (K 4%nat (sany islower_char)),
    (K 5%nat (sany isdigit_char)), (K 6%nat (has_special cfg))
    by (intros pwd; by apply F).
  repeat split; by simplify_map_eq.
Qed.

End Statistics.

(** *** Validation and the dialogue *)

Lemma when_nil {A} (c : bool) (x : A) (l : list A) :
  when c (x :: l) = [] ↔ c = false.
Proof. by destruct c. Qed.

Lemma validate_spec (p : Profile) :
  (validate p).1 = true
  ↔ truthy (name p) = true
    ∧ date_acceptable (birthdate p) = true
    ∧ date_acceptable (partner_birthdate p) = true
    ∧ date_acceptable (child_birthdate p) = true
    ∧ email_acceptable (email p) = true.
Proof.
  unfold validate. cbv zeta. cbn [fst].
  rewrite bool_decide_eq_true, length_zero_iff_nil.
  unfold date_fields. cbn [mbind list_bind fmap list_fmap app fst snd].
  rewrite app_nil_r, !app_nil, !when_nil.
  unfold date_acceptable, email_acceptable.
  assert (∀ a b c : bool,
            a && (negb b || negb c) = false ↔ negb a || b && c = true) as D
    by (by intros [] [] []).
  assert (∀ a b : bool, a && negb b = false ↔ negb a || b = true) as E
    by (by intros [] []).
  rewrite !D, E, negb_false_iff. tauto.
Qed.

(** [validate] reports success exactly when it reports no error. *)
Lemma validate_errors (p : Profile) :
  (validate p).1 = true ↔ (validate p).2 = [].
Proof.
  unfold validate. cbv zeta. cbn [fst snd].
  by rewrite bool_decide_eq_true, length_zero_iff_nil.
Qed.

Lemma ask_until_inv {A} (accept : string → option A) (inputs rest : list string)
    (a : A) :
  ask_until accept inputs = Some (a, rest) →
  ∃ line, line ∈ inputs ∧ accept line = Some a.
Proof.
  induction inputs as [|line inputs IH]; [done|]. simpl.
  destruct (accept line) as [a'|] eqn:E.
  - intros [= -> ->]. exists line. split; [left|done].
  - intros (l & Hl & Ha)%IH. exists l. split; [by right|done].
Qed.

Lemma _get_date_input_acceptable (inputs rest : list string) (date : string) :
  _get_date_input inputs = Some (date, rest) → date_acceptable date = true.
Proof.
  intros (line & _ & H)%ask_until_inv. unfold date_acceptable.
  cbv zeta in H.
  destruct (truthy (strip line)); simpl in H; [|by injection H as <-].
  destruct ((len (strip line) =? 8) && isdigit (strip line)) eqn:E; [|done].
  injection H as <-. rewrite E. apply orb_true_r.
Qed.

Lemma _get_email_input_acceptable (inputs rest : list string) (e : string) :
  _get_email_input inputs = Some (e, rest) → email_acceptable e = true.
Proof.
  intros (line & _ & H)%ask_until_inv. unfold email_acceptable.
  cbv zeta in H.
  destruct (truthy (lower (strip line))); simpl in H; [|by injection H as <-].
  destruct (contains "@" (lower (strip line))) eqn:E; simpl in H; [|done].
  destruct (from_option _ _ _); [|done].
  injection H as <-. rewrite E. apply orb_true_r.
Qed.

Lemma reader_bind_inv {A B} (m : reader A) (k : A → reader B)
    (inputs rest : list string) (b : B) :
  (m ≫= k) inputs = Some (b, rest) →
  ∃ a mid, m inputs = Some (a, mid) ∧ k a mid = Some (b, rest).
Proof.
  unfold mbind, reader_bind. destruct (m inputs) as [[a mid]|]; [|done].
  intros H. by exists a, mid.
Qed.

Lemma ask_profile_validates (inputs rest : list string) (p : Profile) :
  ask_profile inputs = Some (p, rest) → (validate p).1 = true.
Proof.
  unfold ask_profile.
  intros (name_ & ? & Hname & H)%reader_bind_inv.
  apply reader_bind_inv in H as (surname_ & ? & _ & H).
  apply reader_bind_inv in H as (nickname_ & ? & _ & H).
  apply reader_bind_inv in H as (birthdate_ & ? & Hb & H).
  apply reader_bind_inv in H as (email_ & ? & He & H).
  apply reader_bind_inv in H as (phone_ & ? & _ & H).
  apply reader_bind_inv in H as (pname_ & ? & _ & H).
  apply reader_bind_inv in H as (pnick_ & ? & _ & H).
  apply reader_bind_inv in H as (pbirth_ & ? & Hpb & H).
  apply reader_bind_inv in H as (cname_ & ? & _ & H).
  apply reader_bind_inv in H as (cnick_ & ? & _ & H).
  apply reader_bind_inv in H as (cbirth_ & ? & Hcb & H).
  apply reader_bind_inv in H as (pet_ & ? & _ & H).
  apply reader_bind_inv in H as (company_ & ? & _ & H).
  apply reader_bind_inv in H as (keywords_ & ? & _ & H).
  injection H as <- <-. apply validate_spec. simpl.
  apply ask_until_inv in Hname as (line & _ & Hline). cbv zeta in Hline.
  destruct (truthy (lower (strip line))) eqn:Hn; [|done].
  injection Hline as <-.
  split; [exact Hn|].
  split; [exact (_get_date_input_acceptable _ _ _ Hb)|].
  split; [exact (_get_date_input_acceptable _ _ _ Hpb)|].
  split; [exact (_get_date_input_acceptable _ _ _ Hcb)|].
  exact (_get_email_input_acceptable _ _ _ He).
Qed.

(** The profile that the dialogue builds always validates: the warning
    branch of [interactive_profile] and its restart are never taken, so one
    pass suffices and the profile is the one the questions produced. *)
Theorem interactive_profile_validates (fuel : nat) (inputs : list string) :
  interactive_profile (S fuel) inputs
  = match ask_profile inputs with
    | Some (profile, rest) => Returned profile rest
    | None => EOFError
    end
  ∧ ∀ profile rest,
      interactive_profile (S fuel) inputs = Returned profile rest →
      validate profile = (true, []).
Proof.
  assert (interactive_profile (S fuel) inputs
          = match ask_profile inputs with
            | Some (profile, rest) => Returned profile rest
            | None => EOFError
            end) as E.
  { cbn [interactive_profile].
    destruct (ask_profile inputs) as [[p rest]|] eqn:Ea; [|done].
    by rewrite (ask_profile_validates inputs rest p Ea). }
  split; [exact E|]. intros profile rest. rewrite E.
  destruct (ask_profile inputs) as [[p r]|] eqn:Ea; [|done].
  intros [= -> ->]. pose proof (ask_profile_validates _ _ _ Ea) as Hv.
  pose proof (proj1 (validate_errors profile) Hv) as He.
  destruct (validate profile) as [ok errors]. simpl in *. by subst.
Qed.

(** *** Dates of a validated profile *)

Lemma size_list_to_set_le (l : list string) :
  (size (list_to_set l : gset string) ≤ List.length l)%nat.
Proof.
  unfold size, set_size. simpl.
  apply submseteq_length, NoDup_submseteq; [apply NoDup_elements|].
  intros x. rewrite elem_of_elements. apply elem_of_list_to_set.
Qed.

Lemma variants_digits (date v : string) :
  String.length date = 8%nat → isdigit date = true →
  v ∈ enumerated_variants date →
  isdigit v = true ∧ len v ≤ 8.
Proof.
  intros (a & b & c & d & e & f & g & h & ->)%length_8_inv Hd Hv.
  unfold isdigit in Hd. cbn [truthy sall andb] in Hd.
  apply andb_true_iff in Hd as [Ha Hd]. apply andb_true_iff in Hd as [Hb Hd].
  apply andb_true_iff in Hd as [Hc Hd]. apply andb_true_iff in Hd as [Hd' Hd].
  apply andb_true_iff in Hd as [He Hd]. apply andb_true_iff in Hd as [Hf Hd].
  apply andb_true_iff in Hd as [Hg Hd]. apply andb_true_iff in Hd as [Hh _].
  cbv [enumerated_variants substring String.append] in Hv.
  repeat (apply elem_of_cons in Hv as [-> | Hv]);
    try (by apply elem_of_nil in Hv);
    (split; [unfold isdigit; cbn [truthy sall];
             by rewrite ?Ha, ?Hb, ?Hc, ?Hd', ?He, ?Hf, ?Hg, ?Hh
            | unfold len; simpl; lia]).
Qed.

Section ValidatedDates.

Context (listing : gset string → list string).
Context (listing_perm : ∀ X : gset string, listing X ≡ₚ elements X).

(** For a profile that validates, each date field yields at most seventeen
    fragments, and every fragment is a non-empty string of digits, at most
    eight characters long. *)
Theorem validated_dates_are_digits (p : Profile) (field : string)
    (variations : list string) :
  (validate p).1 = true →
  field ∈ [birthdate p; partner_birthdate p; child_birthdate p] →
  generate_date_variations listing field = Some variations →
  (List.length variations ≤ 17)%nat
  ∧ ∀ v, v ∈ variations → isdigit v = true ∧ len v ≤ 8.
Proof.
  intros (_ & H1 & H2 & H3 & _)%validate_spec Hfield Hv.
  assert (date_acceptable field = true) as Hok.
  { revert Hfield. rewrite !elem_of_cons, elem_of_nil.
    intros [-> | [-> | [-> | []]]]; done. }
  clear H1 H2 H3 Hfield. unfold date_acceptable in Hok.
  destruct (decide (String.length field = 8%nat)) as [H8 | H8].
  - rewrite (generate_date_variations_length_8 listing) in Hv by done.
    assert (variations = listing (list_to_set (enumerated_variants field)))
      as -> by congruence.
    assert (isdigit field = true) as Hd.
    { destruct field as [|c r]; [done|]. cbn [truthy negb orb] in Hok.
      by apply andb_true_iff in Hok as [_ ?]. }
    split.
    + rewrite (listing_length listing listing_perm).
      etrans; [apply size_list_to_set_le|]. done.
    + intros v. rewrite (listing_elem listing listing_perm), elem_of_list_to_set.
      by apply variants_digits.
  - rewrite (generate_date_variations_other listing) in Hv by done.
    assert (variations = []) as -> by congruence.
    split; [simpl; lia|]. by intros v ?%elem_of_nil.
Qed.

End ValidatedDates.

(** *** Leet maps in general *)

Lemma lower_char_idem (c : ascii) : lower_char (lower_char c) = lower_char c.
Proof. by destruct c as [[] [] [] [] [] [] [] []]. Qed.

Lemma lower_upper_char (c : ascii) : lower_char (upper_char c) = lower_char c.
Proof. by destruct c as [[] [] [] [] [] [] [] []]. Qed.

Lemma lower_idem (s : string) : lower (lower s) = lower s.
Proof. unfold lower. rewrite smap_smap. apply smap_ext, lower_char_idem. Qed.

Lemma lower_app (s1 s2 : string) : lower (s1 +:+ s2) = lower s1 +:+ lower s2.
Proof.
  induction s1 as [|c r IH]; [done|].
  rewrite sapp_cons. unfold lower in *. cbn [smap]. by rewrite IH.
Qed.

Lemma lower_replace (k : ascii) (v s : string) :
  lower v = v → lower s = s → lower (replace k v s) = replace k v s.
Proof.
  intros Hv. induction s as [|c r IH]; [done|].
  unfold lower at 1 2. cbn [smap]. intros [= Hc Hr]. cbn [replace].
  destruct (Ascii.eqb c k).
  - rewrite lower_app, Hv. by rewrite IH.
  - unfold lower in *. cbn [smap]. by rewrite Hc, IH.
Qed.

Lemma contains_app (c : ascii) (s1 s2 : string) :
  contains c (s1 +:+ s2) = contains c s1 || contains c s2.
Proof.
  unfold contains. induction s1 as [|d r IH]; [done|].
  rewrite sapp_cons. cbn [sany]. by rewrite IH, orb_assoc.
Qed.

Lemma replace_free (c k : ascii) (v s : string) :
  contains c v = false →
  c = k ∨ contains c s = false →
  contains c (replace k v s) = false.
Proof.
  intros Hv. induction s as [|d r IH]; [done|]. intros H. cbn [replace].
  destruct (Ascii.eqb d k) eqn:E.
  - rewrite contains_app, Hv. apply IH.
    destruct H as [-> | H]; [by left|]. right.
    by apply contains_cons in H as [_ ?].
  - apply contains_cons. destruct H as [-> | H].
    + split; [done|]. apply IH. by left.
    + apply contains_cons in H as [? ?]. split; [done|]. apply IH. by right.
Qed.

Lemma replace_absent (k : ascii) (v s : string) :
  contains k s = false → replace k v s = s.
Proof.
  induction s as [|d r IH]; [done|].
  intros [Hd Hr]%contains_cons. cbn [replace]. by rewrite Hd, IH.
Qed.

Lemma length_replace (k : ascii) (v s : string) :
  String.length v = 1%nat → String.length (replace k v s) = String.length s.
Proof.
  intros Hv. induction s as [|d r IH]; [done|]. cbn [replace].
  destruct (Ascii.eqb d k).
  - rewrite length_sapp, Hv, IH. done.
  - simpl. by rewrite IH.
Qed.

Lemma length_smap (f : ascii → ascii) (s : string) :
  String.length (smap f s) = String.length s.
Proof. induction s as [|c r IH]; simpl; by rewrite ?IH. Qed.

Section LeetFold.

Context (keys : list ascii) (items : list (ascii * string)).
Context (no_keys : ∀ k v c, (k, v) ∈ items → c ∈ keys → contains c v = false).
Context (lowered : ∀ k v, (k, v) ∈ items → lower v = v).

Lemma leet_fold_free (done_ todo : list (ascii * string)) (s : string) :
  items = done_ ++ todo →
  (∀ c, c ∈ keys → c ∉ todo.*1 → contains c s = false) →
  ∀ c, c ∈ keys → contains c (foldl leet_item s todo) = false.
Proof.
  revert done_ s. induction todo as [|[k v] todo IH]; intros done_ s E Hs c Hc.
  - apply Hs; [done|]. by intros ?%elem_of_nil.
  - simpl. apply (IH (done_ ++ [(k, v)])); [by rewrite <- app_assoc| |done].
    intros c' Hc' Hnot. unfold leet_item. simpl.
    assert ((k, v) ∈ items) as Hin.
    { rewrite E, elem_of_app. right. left. }
    apply replace_free; [by eapply no_keys|].
    destruct (decide (c' = k)) as [-> | Hne]; [by left|]. right.
    apply Hs; [done|]. simpl. rewrite elem_of_cons. tauto.
Qed.

Lemma leet_fold_absent (todo : list (ascii * string)) (s : string) :
  (∀ c, c ∈ todo.*1 → contains c s = false) → foldl leet_item s todo = s.
Proof.
  induction todo as [|[k v] todo IH]; [done|]. intros H. simpl.
  unfold leet_item at 2. simpl. rewrite replace_absent.
  - apply IH. intros c Hc. apply H. simpl. by right.
  - apply H. simpl. left.
Qed.

Lemma leet_fold_lower (done_ todo : list (ascii * string)) (s : string) :
  items = done_ ++ todo → lower s = s →
  lower (foldl leet_item s todo) = foldl leet_item s todo.
Proof.
  revert done_ s. induction todo as [|[k v] todo IH]; intros done_ s E Hs; [done|].
  simpl. apply (IH (done_ ++ [(k, v)])); [by rewrite <- app_assoc|].
  unfold leet_item. simpl. apply lower_replace; [|done].
  apply (lowered k). rewrite E, elem_of_app. right. left.
Qed.

End LeetFold.

Lemma leet_closed_inv (items : list (ascii * string)) :
  leet_closed items = true →
  (∀ k v c, (k, v) ∈ items → c ∈ items.*1 → contains c v = false)
  ∧ (∀ k v, (k, v) ∈ items → lower v = v).
Proof.
  unfold leet_closed. rewrite forallb_forall. intros H. split.
  - intros k v c Hkv [[c' v'] [-> Hc]]%list_elem_of_fmap.
    apply list_elem_of_In, H, andb_true_iff in Hkv as [Hkv _].
    rewrite forallb_forall in Hkv.
    apply list_elem_of_In, Hkv in Hc. by apply negb_true_iff in Hc.
  - intros k v Hkv.
    apply list_elem_of_In, H, andb_true_iff in Hkv as [_ Hkv].
    by apply String.eqb_eq in Hkv.
Qed.

(** For every leet map whose replacements contain no key of the map and
    no upper-case letter, whatever the order of its entries, the leet form
    of a word contains no key of the map, and transforming it again
    changes nothing. *)
Theorem make_leet_closed_map (g : GlobalConfig) (w : string) :
  leet_closed (LEET g) = true →
  (∀ k, k ∈ (LEET g).*1 → contains k (make_leet g w) = false)
  ∧ make_leet g (make_leet g w) = make_leet g w.
Proof.
  intros [Hfree Hlow]%leet_closed_inv.
  assert (∀ k, k ∈ (LEET g).*1 → contains k (make_leet g w) = false) as Hk.
  { intros k Hk. unfold make_leet.
    by apply (leet_fold_free (LEET g).*1 (LEET g) Hfree [] (LEET g)). }
  split; [exact Hk|].
  unfold make_leet at 1.
  assert (lower (make_leet g w) = make_leet g w) as ->.
  { unfold make_leet.
    apply (leet_fold_lower (LEET g) Hlow [] (LEET g)); [done|apply lower_idem]. }
  by apply leet_fold_absent.
Qed.

(** The leet form of an ASCII word does not depend on its case: the word,
    its upper-case, lower-case and capitalized forms all have the same
    one. (Beyond ASCII [str.upper] is not undone by [str.lower], and the
    statement is about ASCII words only.) *)
Theorem make_leet_ignores_case (g : GlobalConfig) (w : string) :
  isascii w = true →
  make_leet g (upper w) = make_leet g w
  ∧ make_leet g (lower w) = make_leet g w
  ∧ make_leet g (capitalize w) = make_leet g w.
Proof.
  intros _.
  assert (lower (upper w) = lower w) as E1.
  { unfold lower, upper. rewrite smap_smap. apply smap_ext, lower_upper_char. }
  assert (lower (capitalize w) = lower w) as E2.
  { destruct w as [|c r]; [done|]. unfold capitalize, lower. cbn [smap].
    fold (lower r). fold (lower (lower r)).
    by rewrite lower_upper_char, lower_idem. }
  unfold make_leet. by rewrite E1, E2, lower_idem.
Qed.

(** When every replacement of the leet map is a single character, as in
    the default map, the leet form of an ASCII word has the length of the
    word; so it passes the length filter exactly when the word does.
    (Beyond ASCII [str.lower] can lengthen a word, and the statement is
    about ASCII words only.) *)
Theorem make_leet_length (cfg : PasswordConfig) (g : GlobalConfig) (w : string) :
  leet_single (LEET g) = true →
  isascii w = true →
  len (make_leet g w) = len w
  ∧ (in_bounds cfg (make_leet g w) ↔ in_bounds cfg w).
Proof.
  intros H _. unfold leet_single in H. rewrite forallb_forall in H.
  assert (len (make_leet g w) = len w) as E.
  { unfold make_leet, len. f_equal.
    rewrite <- (length_smap lower_char w). fold (lower w).
    generalize (lower w) as s.
    induction (LEET g) as [|[k v] items IH]; intros s; [done|]. simpl.
    rewrite IH.
    - apply length_replace. apply Nat.eqb_eq, (H (k, v)). by left.
    - intros item Hin. apply H. by right. }
  split; [exact E|]. unfold in_bounds. by rewrite E.
Qed.

(** *** What a strong password needs *)

(** A password is rated strong only if it has at least eight characters;
    one without any configured special character is rated strong only if
    it has at least sixteen characters, an upper-case letter, a lower-case
    letter and a digit. *)
Theorem strong_requirements (cfg : PasswordConfig) (password : string) :
  calculate_password_strength cfg password = strong →
  8 ≤ len password
  ∧ (has_special cfg password = false →
       16 ≤ len password
       ∧ sany isupper_char password = true
       ∧ sany islower_char password = true
       ∧ sany isdigit_char password = true).
Proof.
  unfold calculate_password_strength.
  destruct (8 <=? len password) eqn:E8, (12 <=? len password) eqn:E12,
    (16 <=? len password) eqn:E16,
    (sany isupper_char password), (sany islower_char password),
    (sany isdigit_char password), (has_special cfg password),
    (Float64.gt_times_07 (distinct password) (len password));
    intros Hs; vm_compute in Hs; try discriminate Hs; clear Hs;
    (apply Z.leb_le in E8 || apply Z.leb_gt in E8);
    (apply Z.leb_le in E12 || apply Z.leb_gt in E12);
    (apply Z.leb_le in E16 || apply Z.leb_gt in E16);
    (split; [lia|]); intros Hf; try discriminate Hf;
    (split; [lia|done]).
Qed.

(** When no configured special character is exactly one character long,
    no password is found to contain a special character, and the two
    points for it are never given. *)
Theorem no_single_special_chars (cfg : PasswordConfig) (password : string) :
  (∀ s, s ∈ special_chars cfg → String.length s ≠ 1%nat) →
  has_special cfg password = false
  ∧ (calculate_password_strength cfg password = strong → 16 ≤ len password).
Proof.
  intros H.
  assert (has_special cfg password = false) as E.
  { unfold has_special. induction password as [|c r IH]; [done|].
    cbn [sany]. rewrite IH, orb_false_r. apply bool_decide_eq_false.
    intros Hin. by apply (H (chr c)). }
  split; [exact E|]. intros Hs.
  unfold calculate_password_strength in Hs. rewrite E in Hs.
  destruct (16 <=? len password) eqn:E16; [by apply Z.leb_le|].
  revert Hs.
  destruct (8 <=? len password), (12 <=? len password),
    (sany isupper_char password), (sany islower_char password),
    (sany isdigit_char password),
    (Float64.gt_times_07 (distinct password) (len password));
    by vm_compute.
Qed.

(** *** The configuration that [main] builds *)

Section Configure.

Context (listing : gset string → list string).

(** [--min-len 0] and [--max-len 0] do not switch a bound off: the bounds
    of the configuration stay in force, and numbers are always combined,
    there being no option against them. *)
Theorem zero_length_options_ignored (g : GlobalSection) (glob : GlobalConfig)
    (args : Args) (profile : Profile) :
  min_len args = Some 0 → max_len args = Some 0 →
  use_numbers (configure g args) = true
  ∧ ∃ passwords,
      generate_combinations listing (configure g args) glob profile
      = Some passwords
      ∧ ∀ token, token ∈ passwords → wcfrom g ≤ len token ≤ wcto g.
Proof.
  intros Hmin Hmax. split; [done|].
  destruct (generate_combinations_total listing (configure g args) glob profile)
    as (passwords & raw & E & ->).
  eexists. split; [exact E|].
  intros token [Hb _]%elem_of_filter. unfold in_bounds, configure in Hb.
  by rewrite Hmin, Hmax in Hb.
Qed.

End Configure.

(** *** What the improver produces *)

Lemma bind_take_elem {B} (n : nat) (words : list string) (f : string → list B)
    (x : B) :
  x ∈ (word ← take n words; f word)
  ↔ ∃ i word, words !! i = Some word ∧ (i < n)%nat ∧ x ∈ f word.
Proof.
  rewrite list_elem_of_bind. setoid_rewrite elem_of_take. split.
  - intros (w & Hx & i & Hi & Hlt). by exists i, w.
  - intros (i & w & Hi & Hlt & Hx). exists w. split; [done|]. by exists i.
Qed.

(** The improved set, completely: a token within the length bounds that
    is a loaded word, a case variant of one of the first 1000 words, the
    leet form or a year combination of one of the first 500, or one of the
    first 300 followed by one of the first three special characters or by
    one of the five fixed numbers; and nothing else. *)
Theorem enhance_elem (cfg : PasswordConfig) (glob : GlobalConfig)
    (words : list string) (x : string) :
  x ∈ enhance cfg glob words
  ↔ in_bounds cfg x
    ∧ (x ∈ words
       ∨ (∃ i word, words !! i = Some word ∧ (i < 1000)%nat
            ∧ x ∈ [capitalize word; upper word; lower word])
       ∨ (use_leet cfg = true
          ∧ ∃ i word, words !! i = Some word ∧ (i < 500)%nat
              ∧ x ∈ [make_leet glob word])
       ∨ (∃ i word, words !! i = Some word ∧ (i < 500)%nat
            ∧ x ∈ (year ← improve_years; [word +:+ year; year +:+ word]))
       ∨ (use_special_chars cfg = true
          ∧ ∃ i word, words !! i = Some word ∧ (i < 300)%nat
              ∧ x ∈ (char ← take 3 (special_chars cfg); [word +:+ char]))
       ∨ (∃ i word, words !! i = Some word ∧ (i < 300)%nat
            ∧ x ∈ (num ← improve_numbers; [word +:+ num]))).
Proof.
  unfold enhance. cbv zeta. rewrite elem_of_filter.
  assert (∀ n, make_leet glob <$> take n words
               = (word ← take n words; [make_leet glob word])) as L.
  { intros n. induction (take n words) as [|w l IH]; [done|].
    rewrite fmap_cons, IH. done. }
  rewrite L.
  destruct (use_leet cfg), (use_special_chars cfg);
    rewrite !elem_of_union, !elem_of_list_to_set, !bind_take_elem;
    intuition congruence.
Qed.

(** *** Tokens read from a file *)

Lemma universal_newlines_no_cr (text : string) :
  contains cr (universal_newlines text) = false.
Proof.
  assert (∀ n t, (String.length t ≤ n)%nat →
                 contains cr (universal_newlines t) = false) as H.
  { induction n as [|n IH]; intros [|c r] Hn; try done; [simpl in Hn; lia|].
    simpl in Hn. cbn [universal_newlines].
    destruct (Ascii.eqb c cr) eqn:Ec.
    - destruct r as [|d r'].
      + done.
      + destruct (Ascii.eqb d lf); apply contains_cons;
          (split; [done|]); apply IH; simpl in *; lia.
    - apply contains_cons. split; [done|]. apply IH. lia. }
  by apply (H (String.length text)).
Qed.

Lemma file_lines_inv (text line : string) :
  line ∈ file_lines text →
  ∃ body,
    (line = body ∨ line = body +:+ newline)
    ∧ contains lf body = false
    ∧ (contains cr text = false → contains cr body = false).
Proof.
  revert line. induction text as [|c r IH]; intros line; [by intros ?%elem_of_nil|].
  cbn [file_lines]. destruct (Ascii.eqb c lf) eqn:Ec.
  - intros [-> | Hin]%elem_of_cons.
    + exists "". split; [by right|]. done.
    + destruct (IH line Hin) as (body & Hb & Hlf & Hcr).
      exists body. split; [done|]. split; [done|].
      intros [_ ?]%contains_cons. by apply Hcr.
  - destruct (file_lines r) as [|l ls] eqn:El.
    + intros ->%list_elem_of_singleton. exists (String c ""). split; [by left|].
      split; [by apply contains_cons|].
      intros [? _]%contains_cons. by apply contains_cons.
    + intros [-> | Hin]%elem_of_cons.
      * destruct (IH l) as (body & Hb & Hlf & Hcr); [left|].
        exists (String c body). split.
        { destruct Hb as [-> | ->]; [by left|by right]. }
        split; [by apply contains_cons|].
        intros [? ?]%contains_cons. apply contains_cons. split; [done|].
        by apply Hcr.
      * destruct (IH line) as (body & Hb & Hlf & Hcr); [by right|].
        exists body. split; [done|]. split; [done|].
        intros [_ ?]%contains_cons. by apply Hcr.
Qed.

Lemma lstrip_app (s t : string) :
  lstrip (s +:+ t) = if truthy (lstrip s) then lstrip s +:+ t else lstrip t.
Proof.
  induction s as [|c r IH]; [reflexivity|].
  rewrite sapp_cons. cbn [lstrip].
  destruct (isspace_char c); [exact IH|]. done.
Qed.

Lemma strip_newline (body : string) : strip (body +:+ newline) = strip body.
Proof.
  unfold strip. rewrite lstrip_app.
  destruct (lstrip body) as [|c u] eqn:E; [done|]. cbn [truthy].
  rewrite reversed_app.
  change (reversed newline +:+ reversed (String c u))
    with (String lf (reversed (String c u))).
  done.
Qed.

Lemma contains_reversed (c : ascii) (s : string) :
  contains c (reversed s) = contains c s.
Proof.
  induction s as [|d r IH]; [done|].
  rewrite reversed_cons, contains_app, IH. unfold contains, chr. cbn [sany].
  by rewrite orb_false_r, orb_comm.
Qed.

Lemma contains_lstrip (c : ascii) (s : string) :
  contains c s = false → contains c (lstrip s) = false.
Proof.
  destruct (lstrip_suffix s) as [p E]. intros H. rewrite E in H.
  rewrite contains_app in H. by apply orb_false_iff in H as [_ ?].
Qed.

Lemma contains_strip (c : ascii) (s : string) :
  contains c s = false → contains c (strip s) = false.
Proof.
  intros H. unfold strip. rewrite contains_reversed.
  apply contains_lstrip. rewrite contains_reversed. by apply contains_lstrip.
Qed.

Lemma read_words_tokens (text w : string) :
  w ∈ read_words text → clean w = true.
Proof.
  unfold read_words. intros (Ht & line & Hline & ->)%load_words_elem.
  apply file_lines_inv in Hline as (body & Hb & Hlf & Hcr).
  specialize (Hcr (universal_newlines_no_cr text)).
  assert (strip line = strip body) as E.
  { destruct Hb as [-> | ->]; [done|apply strip_newline]. }
  rewrite E in *. destruct (strip_clean body) as [H1 H2].
  unfold clean. rewrite Ht, H1, H2.
  by rewrite (contains_strip lf), (contains_strip cr).
Qed.

(** Every token that [improve_wordlist] and [merge_wordlists] read from a
    file is clean: not empty, without white space at either end and
    without a line break inside. *)
Theorem read_words_clean (text w : string) :
  w ∈ read_words text → clean w = true.
Proof. apply read_words_tokens. Qed.

Section MergeAgain.

Context (listing : gset string → list string).
Context (listing_perm : ∀ X : gset string, listing X ≡ₚ elements X).

Lemma merged_tokens_clean (cfg : PasswordConfig) (texts : gmap string string)
    (files : list string) (x : string) :
  x ∈ merged_tokens cfg (read_fs texts) files → clean x = true.
Proof.
  intros (_ & file & lines & _ & Hl & Hx)%merged_tokens_elem.
  unfold read_fs in Hl. rewrite lookup_fmap in Hl.
  destruct (texts !! file) as [text|]; [|done]. injection Hl as <-.
  by apply (read_words_tokens text).
Qed.

Lemma read_fs_insert (texts : gmap string string) (file text : string) :
  read_fs (<[file := text]> texts) !! file
  = Some (file_lines (universal_newlines text)).
Proof. unfold read_fs. by rewrite lookup_fmap, lookup_insert_eq. Qed.

(** Merging is idempotent on files: the merged wordlist, read back, gives
    the merged tokens in the exported order, and merging the written file
    by itself gives the same set again. *)
Theorem merge_wordlists_idempotent (cfg : PasswordConfig)
    (texts : gmap string string) (files : list string) (output_file : string) :
  read_words (merge_wordlists listing cfg (read_fs texts) files)
  = sorted listing (merged_tokens cfg (read_fs texts) files)
  ∧ merged_tokens cfg
      (read_fs (<[output_file :=
                    merge_wordlists listing cfg (read_fs texts) files]> texts))
      [output_file]
    = merged_tokens cfg (read_fs texts) files.
Proof.
  assert (read_words (merge_wordlists listing cfg (read_fs texts) files)
          = sorted listing (merged_tokens cfg (read_fs texts) files)) as E.
  { unfold merge_wordlists, export_txt. apply read_words_concat, Forall_forall.
    intros t Ht. apply (merged_tokens_clean cfg texts files).
    unfold sorted in Ht. rewrite merge_sort_Permutation in Ht.
    by apply (listing_elem listing listing_perm). }
  split; [exact E|]. apply set_eq. intros x. rewrite merged_tokens_elem.
  split.
  - intros (Hb & file & lines & ->%list_elem_of_singleton & Hl & Hx).
    rewrite read_fs_insert in Hl.
    assert (lines = file_lines (universal_newlines
              (merge_wordlists listing cfg (read_fs texts) files)))
      as -> by congruence.
    change (x ∈ read_words (merge_wordlists listing cfg (read_fs texts) files))
      in Hx.
    rewrite E in Hx. unfold sorted in Hx.
    rewrite merge_sort_Permutation in Hx.
    by apply (listing_elem listing listing_perm) in Hx.
  - intros Hx. split.
    { by apply merged_tokens_elem in Hx as [? _]. }
    eexists output_file, _. split; [left|]. split.
    { apply read_fs_insert. }
    change (x ∈ read_words (merge_wordlists listing cfg (read_fs texts) files)).
    rewrite E. unfold sorted. rewrite merge_sort_Permutation.
    by apply (listing_elem listing listing_perm).
Qed.

End MergeAgain.

(** ** The further properties at concrete inputs *)

Lemma backwards_listing (X : gset string) : backwards X ≡ₚ elements X.
Proof. unfold backwards. apply reverse_Permutation. Qed.

Lemma demo_set_nonempty : demo_set ≠ ∅.
Proof.
  intros H. assert ("password" ∈ (∅ : gset string)) as []%not_elem_of_empty.
  rewrite <- H. unfold demo_set. apply elem_of_union_l, elem_of_singleton.
  reflexivity.
Qed.

Lemma load_words_stripped_witness :
  "pw" ∈ load_words ["password" +:+ newline; " pw " +:+ newline]
  ∧ "pw" ≠ "" ∧ strip "pw" = "pw".
Proof.
  assert ("pw" ∈ load_words ["password" +:+ newline; " pw " +:+ newline]) as H
    by (vm_compute; right; left).
  split; [exact H|].
  destruct (load_words_stripped _ "pw" H) as (H1 & _ & _ & H2).
  exact (conj H1 H2).
Defined.

Lemma export_txt_canonical_witness :
  (∀ X : gset string, backwards X ≡ₚ elements X)
  ∧ sorted backwards demo_set = sorted elements demo_set
  ∧ export_txt backwards demo_set = export_txt elements demo_set.
Proof.
  split; [exact backwards_listing|].
  destruct (export_txt_canonical backwards backwards_listing demo_set)
    as (_ & _ & H1 & H2).
  exact (conj H1 H2).
Defined.

Lemma export_txt_read_back_witness :
  (∀ t, t ∈ demo_set → clean t = true)
  ∧ read_words (export_txt backwards demo_set) = sorted backwards demo_set.
Proof.
  assert (∀ t, t ∈ demo_set → clean t = true) as H.
  { intros t. unfold demo_set. rewrite elem_of_union, !elem_of_singleton.
    intros [-> | ->]; reflexivity. }
  split; [exact H|].
  exact (proj1 (export_txt_read_back backwards backwards_listing demo_set H)).
Defined.

Lemma merged_tokens_readable_files_witness :
  (∀ f, is_Some (demo_fs !! f) →
        f ∈ ["a.txt"; "b.txt"] ↔ f ∈ ["b.txt"; "missing.txt"; "a.txt"; "b.txt"])
  ∧ merged_tokens default_config demo_fs ["a.txt"; "b.txt"]
    = merged_tokens default_config demo_fs
        ["b.txt"; "missing.txt"; "a.txt"; "b.txt"].
Proof.
  assert (∀ f, is_Some (demo_fs !! f) →
            f ∈ ["a.txt"; "b.txt"]
            ↔ f ∈ ["b.txt"; "missing.txt"; "a.txt"; "b.txt"]) as H.
  { intros f Hf. rewrite !elem_of_cons, !elem_of_nil.
    split; [tauto|]. intros [-> | [-> | [-> | [-> | []]]]]; try tauto.
    by destruct Hf. }
  split; [exact H|]. exact (merged_tokens_readable_files _ _ _ _ H).
Defined.

Lemma combinations_contain_witness :
  ∃ passwords,
    generate_combinations elements default_config default_global johnny_profile
    = Some passwords
    ∧ "johnny" ∈ passwords ∧ "johnny_1990" ∈ passwords
    ∧ "2025-johnny" ∈ passwords.
Proof.
  destruct (generate_combinations_total elements default_config default_global
              johnny_profile) as (passwords & raw & E & _).
  exists passwords. split; [exact E|].
  destruct (combinations_contain elements elements_listing default_config
              default_global johnny_profile passwords E) as (H1 & H2 & H3).
  assert ("johnny" ∈ generate_base_words elements johnny_profile) as Hw
    by (apply (bool_decide_eq_true_1 _); vm_compute; reflexivity).
  split; [|split].
  - apply H1; [exact Hw|]. vm_compute. split; discriminate.
  - refine (proj1 (H2 "johnny" "15031990"
                     (elements (list_to_set (enumerated_variants "15031990")))
                     "1990" "_" Hw _ _ _ _) _).
    + left.
    + reflexivity.
    + apply (bool_decide_eq_true_1 _). vm_compute. reflexivity.
    + right; left.
    + vm_compute. split; discriminate.
  - refine (proj2 (H3 "johnny" "2025" "-" Hw _ _) _).
    + apply (bool_decide_eq_true_1 _). vm_compute. reflexivity.
    + right; right; left.
    + vm_compute. split; discriminate.
Defined.

Lemma empty_keyword_fragments_witness :
  "" ∈ keywords johnny_profile
  ∧ ∃ passwords,
      generate_combinations elements default_config default_global johnny_profile
      = Some passwords
      ∧ "15031990" ∈ passwords.
Proof.
  assert ("" ∈ keywords johnny_profile) as Hk by left.
  split; [exact Hk|].
  destruct (generate_combinations_total elements default_config default_global
              johnny_profile) as (passwords & raw & E & _).
  exists passwords. split; [exact E|].
  destruct (empty_keyword_fragments elements elements_listing default_config
              default_global johnny_profile passwords Hk E) as (_ & H & _).
  apply (H "15031990"
           (elements (list_to_set (enumerated_variants "15031990") : gset string))).
  - left.
  - reflexivity.
  - apply (bool_decide_eq_true_1 _). vm_compute. reflexivity.
  - vm_compute. split; discriminate.
Defined.

Lemma combinations_empty_bounds_witness :
  max_length min_len_25 < min_length min_len_25
  ∧ generate_combinations elements min_len_25 default_global johnny_profile
    = Some ∅.
Proof.
  assert (max_length min_len_25 < min_length min_len_25) as H by reflexivity.
  split; [exact H|].
  exact (proj1 (combinations_empty_bounds elements min_len_25 default_global
                  johnny_profile "now" H)).
Defined.

Lemma base_words_reversal_closed_witness :
  "johnny" ∈ generate_base_words elements johnny_profile
  ∧ 3 < len "johnny"
  ∧ reversed "johnny" ∈ generate_base_words elements johnny_profile.
Proof.
  assert ("johnny" ∈ generate_base_words elements johnny_profile) as Hw
    by (apply (bool_decide_eq_true_1 _); vm_compute; reflexivity).
  assert (3 < len "johnny") as Hl by reflexivity.
  split; [exact Hw|]. split; [exact Hl|].
  exact (base_words_reversal_closed elements elements_listing johnny_profile
           "johnny" Hw Hl).
Defined.

Lemma run_interactive_returns_iff_witness :
  generate_combinations elements min_len_25 default_global johnny_profile = Some ∅
  ∧ ¬ is_Some (run_interactive elements min_len_25 default_global "now"
                 johnny_profile).
Proof.
  assert (generate_combinations elements min_len_25 default_global johnny_profile
          = Some ∅) as E.
  { apply (combinations_empty_bounds elements min_len_25 default_global
             johnny_profile "now"). reflexivity. }
  split; [exact E|]. intros H.
  exact (proj1 (run_interactive_returns_iff elements elements_listing min_len_25
                  default_global "now" johnny_profile ∅ E) H eq_refl).
Defined.

Lemma statistics_strength_sum_witness :
  demo_set ≠ ∅
  ∧ ∃ stats dist,
      generate_statistics elements default_config "now" demo_set = Some stats
      ∧ stats !! "strength_distribution" = Some (SCounts dist)
      ∧ get0 "weak" dist + get0 "medium" dist + get0 "strong" dist
        = Z.of_nat (size demo_set).
Proof.
  split; [exact demo_set_nonempty|].
  destruct (statistics_strength_sum elements elements_listing default_config
              "now" demo_set demo_set_nonempty)
    as (stats & dist & E & _ & Hd & Hsum & _).
  exists stats, dist. exact (conj E (conj Hd Hsum)).
Defined.

Lemma statistics_min_max_witness :
  demo_set ≠ ∅
  ∧ ∃ stats lo hi,
      generate_statistics elements default_config "now" demo_set = Some stats
      ∧ stats !! "min_length" = Some (SInt lo)
      ∧ stats !! "max_length" = Some (SInt hi)
      ∧ lo ≤ len "password" ≤ hi.
Proof.
  split; [exact demo_set_nonempty|].
  destruct (statistics_min_max elements elements_listing default_config
              "now" demo_set demo_set_nonempty)
    as (stats & lo & hi & E & Hlo & Hhi & Hb & _).
  exists stats, lo, hi.
  split; [exact E|]. split; [exact Hlo|]. split; [exact Hhi|].
  apply Hb. unfold demo_set. apply elem_of_union_l, elem_of_singleton.
  reflexivity.
Defined.

Lemma export_csv_matches_statistics_witness :
  demo_set ≠ ∅
  ∧ ∃ stats types,
      generate_statistics elements default_config "now" demo_set = Some stats
      ∧ stats !! "char_type_distribution" = Some (SCounts types)
      ∧ types !! "upper"
        = Some (flag_count 3 (export_csv elements default_config demo_set)).
Proof.
  split; [exact demo_set_nonempty|].
  destruct (export_csv_matches_statistics elements elements_listing
              default_config "now" demo_set demo_set_nonempty)
    as (stats & types & E & Ht & _ & Hu & _).
  exists stats, types. exact (conj E (conj Ht Hu)).
Defined.

Lemma interactive_profile_validates_witness :
  ∃ profile rest,
    interactive_profile 1 demo_inputs = Returned profile rest
    ∧ name profile = "john" ∧ keywords profile = ["foo"; "bar"; ""]
    ∧ validate profile = (true, []).
Proof.
  destruct (interactive_profile 1 demo_inputs) as [profile rest| |] eqn:E;
    [|by vm_compute in E..].
  exists profile, rest. split; [reflexivity|].
  assert (Returned profile rest = interactive_profile 1 demo_inputs) as E'
    by done.
  vm_compute in E'. injection E' as -> ->.
  split; [reflexivity|]. split; [reflexivity|].
  exact (proj2 (interactive_profile_validates 0 demo_inputs) _ _ E).
Defined.

Lemma validated_dates_are_digits_witness :
  (validate johnny_profile).1 = true
  ∧ (∀ v, v ∈ elements (list_to_set (enumerated_variants "15031990") : gset string)
          → isdigit v = true ∧ len v ≤ 8).
Proof.
  assert ((validate johnny_profile).1 = true) as H by reflexivity.
  split; [exact H|].
  apply (validated_dates_are_digits elements elements_listing johnny_profile
           "15031990" _ H); [left|reflexivity].
Defined.

Lemma make_leet_closed_map_witness :
  leet_closed (LEET file_global) = true
  ∧ make_leet file_global (make_leet file_global "Boston Tea")
    = make_leet file_global "Boston Tea".
Proof.
  assert (leet_closed (LEET file_global) = true) as H by reflexivity.
  split; [exact H|].
  exact (proj2 (make_leet_closed_map file_global "Boston Tea" H)).
Defined.

Lemma make_leet_ignores_case_witness :
  isascii "Boston Tea" = true
  ∧ make_leet default_global "BOSTON TEA" = make_leet default_global "Boston Tea"
  ∧ make_leet default_global "boston tea" = make_leet default_global "Boston Tea"
  ∧ make_leet default_global "Boston tea" = make_leet default_global "Boston Tea".
Proof.
  assert (isascii "Boston Tea" = true) as H by reflexivity.
  split; [exact H|].
  exact (make_leet_ignores_case default_global "Boston Tea" H).
Defined.

Lemma make_leet_length_witness :
  (leet_single (LEET default_global) = true ∧ isascii "Boston Tea" = true)
  ∧ len (make_leet default_global "Boston Tea") = len "Boston Tea".
Proof.
  assert (leet_single (LEET default_global) = true) as H by reflexivity.
  assert (isascii "Boston Tea" = true) as Ha by reflexivity.
  split; [exact (conj H Ha)|].
  exact (proj1 (make_leet_length default_config default_global "Boston Tea" H Ha)).
Defined.

Lemma strong_requirements_witness :
  calculate_password_strength default_config "Passw0rd!" = strong
  ∧ 8 ≤ len "Passw0rd!".
Proof.
  assert (calculate_password_strength default_config "Passw0rd!" = strong) as H
    by reflexivity.
  split; [exact H|].
  exact (proj1 (strong_requirements default_config "Passw0rd!" H)).
Defined.

Lemma no_single_special_chars_witness :
  (∀ s, s ∈ special_chars (PasswordConfig_init fallback_section) →
        String.length s ≠ 1%nat)
  ∧ has_special (PasswordConfig_init fallback_section) "Passw0rd!" = false.
Proof.
  assert (∀ s, s ∈ special_chars (PasswordConfig_init fallback_section) →
            String.length s ≠ 1%nat) as H.
  { intros s. change (special_chars (PasswordConfig_init fallback_section))
      with ["!@#$%&*_-+="].
    intros ->%list_elem_of_singleton. discriminate. }
  split; [exact H|].
  exact (proj1 (no_single_special_chars _ "Passw0rd!" H)).
Defined.

Lemma zero_length_options_ignored_witness :
  (min_len zero_args = Some 0 ∧ max_len zero_args = Some 0)
  ∧ ∃ passwords,
      generate_combinations elements (configure default_section zero_args)
        default_global johnny_profile = Some passwords
      ∧ ∀ token, token ∈ passwords → 6 ≤ len token ≤ 20.
Proof.
  split; [by split|].
  exact (proj2 (zero_length_options_ignored elements default_section
                  default_global zero_args johnny_profile eq_refl eq_refl)).
Defined.

Lemma enhance_elem_witness :
  "PASSWORD" ∈ enhance default_config default_global ["password"].
Proof.
  apply (enhance_elem default_config default_global ["password"] "PASSWORD").
  split; [vm_compute; split; discriminate|].
  right; left. exists 0%nat, "password".
  split; [reflexivity|]. split; [lia|]. right; left.
Defined.

Lemma read_words_clean_witness :
  "pw" ∈ read_words ("password" +:+ newline +:+ " pw " +:+ newline)
  ∧ clean "pw" = true.
Proof.
  assert ("pw" ∈ read_words ("password" +:+ newline +:+ " pw " +:+ newline))
    as H by (vm_compute; right; left).
  split; [exact H|]. exact (read_words_clean _ "pw" H).
Defined.

Lemma merge_wordlists_idempotent_witness :
  (∀ X : gset string, backwards X ≡ₚ elements X)
  ∧ merged_tokens default_config
      (read_fs (<["out.txt" :=
                    merge_wordlists backwards default_config (read_fs demo_texts)
                      ["a.txt"; "b.txt"]]> demo_texts))
      ["out.txt"]
    = merged_tokens default_config (read_fs demo_texts) ["a.txt"; "b.txt"].
Proof.
  split; [exact backwards_listing|].
  exact (proj2 (merge_wordlists_idempotent backwards backwards_listing
                  default_config demo_texts ["a.txt"; "b.txt"] "out.txt")).
Defined.

(** *** The input loops *)

Lemma ask_until_spec {A} (accept : string → option A) (inputs rest : list string)
    (a : A) :
  ask_until accept inputs = Some (a, rest)
  ↔ ∃ skipped line,
      inputs = skipped ++ line :: rest
      ∧ Forall (λ l, accept l = None) skipped
      ∧ accept line = Some a.
Proof.
  split.
  - revert rest. induction inputs as [|l inputs IH]; intros rest; [done|]. simpl.
    destruct (accept l) as [a'|] eqn:E.
    + intros [= -> ->]. by exists [], l.
    + intros (skipped & line & -> & Hs & Ha)%IH.
      exists (l :: skipped), line. split; [done|]. split; [by constructor|done].
  - intros (skipped & line & -> & Hs & Ha).
    induction Hs as [|l skipped Hl _ IH]; simpl.
    + by rewrite Ha.
    + by rewrite Hl.
Qed.

Lemma ask_until_eof {A} (accept : string → option A) (inputs : list string) :
  ask_until accept inputs = None ↔ Forall (λ l, accept l = None) inputs.
Proof.
  induction inputs as [|l inputs IH]; simpl; [by split; [constructor|]|].
  destruct (accept l) as [a|] eqn:E.
  - split; [done|]. intros H. inversion H; congruence.
  - rewrite IH. split; [by constructor|]. by intros H; inversion H.
Qed.

(** Each of the two input loops returns the first line typed that passes
    its check once stripped (and, for the e-mail, lower-cased), in that
    form; the lines before it are skipped, the lines after it are left,
    and the loop ends in an EOFError exactly when no line passes. *)
Theorem input_loops_first_accepted (inputs : list string) :
  (∀ date rest,
     _get_date_input inputs = Some (date, rest)
     ↔ ∃ skipped line,
         inputs = skipped ++ line :: rest
         ∧ Forall (λ l, date_acceptable (strip l) = false) skipped
         ∧ date_acceptable (strip line) = true
         ∧ date = strip line)
  ∧ (_get_date_input inputs = None
     ↔ Forall (λ l, date_acceptable (strip l) = false) inputs)
  ∧ (∀ e rest,
       _get_email_input inputs = Some (e, rest)
       ↔ ∃ skipped line,
           inputs = skipped ++ line :: rest
           ∧ Forall (λ l, email_input_ok (lower (strip l)) = false) skipped
           ∧ email_input_ok (lower (strip line)) = true
           ∧ e = lower (strip line))
  ∧ (_get_email_input inputs = None
     ↔ Forall (λ l, email_input_ok (lower (strip l)) = false) inputs).
Proof.
  set (accept_date := λ line : string,
         let date := strip line in
         if negb (truthy date) then Some EmptyString
         else if (len date =? 8) && isdigit date then Some date
         else None).
  set (accept_email := λ line : string,
         let email := lower (strip line) in
         if negb (truthy email) then Some EmptyString
         else if contains "@" email
                 && from_option (contains ".") false (email_domain email)
              then Some email
         else None).
  assert (∀ l, accept_date l = None ↔ date_acceptable (strip l) = false) as D0.
  { intros l. unfold accept_date, date_acceptable. cbv zeta.
    destruct (truthy (strip l)); simpl; [|done].
    by destruct (_ && _). }
  assert (∀ l d, accept_date l = Some d
                 ↔ date_acceptable (strip l) = true ∧ d = strip l) as D1.
  { intros l d. unfold accept_date, date_acceptable. cbv zeta.
    destruct (strip l) as [|c r] eqn:E.
    - simpl. split; [by intros [= <-]|by intros [_ ->]].
    - cbn [truthy negb orb]. destruct (_ && _).
      + split; [by intros [= <-]|by intros [_ ->]].
      + split; [done|by intros [? _]]. }
  assert (∀ l, accept_email l = None
               ↔ email_input_ok (lower (strip l)) = false) as E0.
  { intros l. unfold accept_email, email_input_ok. cbv zeta.
    destruct (truthy (lower (strip l))); simpl; [|done].
    by destruct (_ && _). }
  assert (∀ l e, accept_email l = Some e
                 ↔ email_input_ok (lower (strip l)) = true
                   ∧ e = lower (strip l)) as E1.
  { intros l e. unfold accept_email, email_input_ok. cbv zeta.
    destruct (lower (strip l)) as [|c r] eqn:E.
    - simpl. split; [by intros [= <-]|by intros [_ ->]].
    - cbn [truthy negb orb]. destruct (_ && _).
      + split; [by intros [= <-]|by intros [_ ->]].
      + split; [done|by intros [? _]]. }
  assert (∀ (l : list string) (f g : string → Prop),
            (∀ x, f x ↔ g x) → Forall f l ↔ Forall g l) as F.
  { intros l f g H. rewrite !Forall_forall. by setoid_rewrite H. }
  change _get_date_input with (ask_until accept_date).
  change _get_email_input with (ask_until accept_email).
  split; [|split; [|split]].
  - intros date rest. rewrite ask_until_spec.
    split; intros (skipped & line & Hi & Hs & Ha); exists skipped, line;
      (split; [done|]).
    + apply D1 in Ha as [? ?]. split; [by apply (F _ _ _ D0)|done].
    + destruct Ha as [? ?]. split; [by apply (F _ _ _ D0)|by apply D1].
  - rewrite ask_until_eof. apply F, D0.
  - intros e rest. rewrite ask_until_spec.
    split; intros (skipped & line & Hi & Hs & Ha); exists skipped, line;
      (split; [done|]).
    + apply E1 in Ha as [? ?]. split; [by apply (F _ _ _ E0)|done].
    + destruct Ha as [? ?]. split; [by apply (F _ _ _ E0)|by apply E1].
  - rewrite ask_until_eof. apply F, E0.
Qed.

Lemma input_loops_first_accepted_witness :
  _get_date_input ["1503"; " 15031990 "; "x"] = Some ("15031990", ["x"])
  ∧ _get_email_input ["a@b"; " A@b.c "; "z"] = Some ("a@b.c", ["z"]).
Proof.
  split.
  - apply (proj1 (input_loops_first_accepted ["1503"; " 15031990 "; "x"])).
    exists ["1503"], " 15031990 ". split; [reflexivity|].
    split; [by repeat constructor|]. by split.
  - apply (proj1 (proj2 (proj2
             (input_loops_first_accepted ["a@b"; " A@b.c "; "z"])))).
    exists ["a@b"], " A@b.c ". split; [reflexivity|].
    split; [by repeat constructor|]. by split.
Defined.
